(** * College lead scraper: a shallow embedding of [college_lead_scraper.py]

    The development follows the Python module top to bottom: the text
    helpers ([extract_emails], [extract_phones]), the DuckDuckGo redirect
    unwrapper, the HTTP helper [_get], the three scraping stages and the
    orchestrator [run_workflow].

    What the module takes from Python and from its libraries is modelled
    next to it: a [str] is a list of code points, the [re] patterns are
    run by a backtracking matcher, [urllib.parse] is transcribed for the
    calls the module makes, BeautifulSoup's parse tree is the type [node],
    and the network is a state that every request threads through. *)

From Stdlib Require Import Ascii String QArith.
From stdpp Require Import base option list sorting gmap strings.

Close Scope Q_scope.
Set Warnings "-register-all".

(** ** Python strings *)

(** A Python [str] is a sequence of Unicode code points; [bytes] are kept
    as a [string], whose characters are octets. *)
Abbreviation str := (list N).
Abbreviation bytes := string.

(** [u "abc"] is the [str] with the code points of an ASCII literal. *)
Definition u (s : string) : str := N_of_ascii <$> list_ascii_of_string s.

Definition ch (a : ascii) : N := N_of_ascii a.

(** The part of the Unicode character database that [re], [str.strip]
    and [str.lower] consult. The ASCII range is written out below; the
    tables answer for code points from 128 on. *)
Inductive uclass :=
| Decimal   (* category Nd: [\d] and [\w] *)
| Alnum     (* the rest of [str.isalnum]: [\w] *)
| Space     (* [str.isspace]: [\s] *)
| Other.

Global Instance uclass_eq_dec : EqDecision uclass.
Proof. solve_decision. Defined.

Record Unicode := {
  u_class : N → uclass;
  u_fold : N → N;        (* the letter a character stands for under re.I *)
  u_lower : str → str;   (* str.lower of a text with a non-ASCII character *)
}.

Definition between (lo hi c : N) : bool := ((lo <=? c) && (c <=? hi))%N.

Definition ascii_upper (c : N) : bool := between 65 90 c.
Definition ascii_lower (c : N) : bool := between 97 122 c.
Definition ascii_alpha (c : N) : bool := ascii_upper c || ascii_lower c.
Definition ascii_digit (c : N) : bool := between 48 57 c.
Definition is_ascii (c : N) : bool := (c <? 128)%N.

Definition one_of (cs : string) (c : N) : bool := bool_decide (c ∈ u cs).

Definition to_lower (c : N) : N := if ascii_upper c then (c + 32)%N else c.

(** Lexicographic order on code points: the order [sorted] uses on [str]. *)
Fixpoint str_leb (a b : str) : bool :=
  match a, b with
  | [], _ => true
  | _ :: _, [] => false
  | x :: a', y :: b' => ((x <? y) || ((x =? y) && str_leb a' b'))%N
  end.

Definition str_le (a b : str) : Prop := str_leb a b = true.

Global Instance str_le_dec a b : Decision (str_le a b).
Proof. unfold str_le. apply _. Defined.

(** [sorted(xs)] and [set(xs)]. A Python set iterates in an order of its
    own; here it is the order of [elements], and [sorted] makes the result
    independent of it. *)
Definition sorted (xs : list str) : list str := merge_sort str_le xs.

Definition set_of (xs : list str) : gset str := list_to_set xs.

(** [sorted(set(xs))] *)
Definition sorted_set (xs : list str) : list str := sorted (elements (set_of xs)).

(** [s.startswith(p)], [s.endswith(p)], [sub in s]. *)
Definition startswith (s p : str) : bool := bool_decide (take (length p) s = p).

Definition endswith (s p : str) : bool :=
  bool_decide (length p ≤ length s ∧ drop (length s - length p) s = p).

Fixpoint contains (s sub : str) : bool :=
  startswith s sub ||
  match s with
  | [] => false
  | _ :: s' => contains s' sub
  end.

(** [sep.join(parts)] *)
Fixpoint join (sep : str) (parts : list str) : str :=
  match parts with
  | [] => []
  | [p] => p
  | p :: ps => p ++ sep ++ join sep ps
  end.

(** [s.lstrip(chars)], [chars] given as a test. *)
Fixpoint lstrip_by (p : N → bool) (s : str) : str :=
  match s with
  | c :: s' => if p c then lstrip_by p s' else s
  | [] => []
  end.

(** [s.replace(a, b)] for single characters. *)
Definition replace_char (a : N) (b : str) (s : str) : str :=
  s ≫= λ c, if (c =? a)%N then b else [c].

(** [s.find(c)] and [s.rfind(c)], [None] for -1. *)
Fixpoint find_char (c : N) (s : str) : option nat :=
  match s with
  | [] => None
  | x :: s' => if (x =? c)%N then Some 0 else S <$> find_char c s'
  end.

Definition find_char_from (c : N) (start : nat) (s : str) : option nat :=
  (λ i, start + i) <$> find_char c (drop start s).

Definition rfind_char (c : N) (s : str) : option nat :=
  (λ i, length s - 1 - i) <$> find_char c (reverse s).

(** [s.split(c, 1)] when [c] occurs in [s]. *)
Definition split_once (c : N) (s : str) : option (str * str) :=
  i ← find_char c s; Some (take i s, drop (S i) s).

(** [s.split(c)] *)
Fixpoint split_on (c : N) (s : str) : list str :=
  match s with
  | [] => [[]]
  | x :: s' =>
    if (x =? c)%N then [] :: split_on c s'
    else match split_on c s' with
         | p :: ps => (x :: p) :: ps
         | [] => [[x]]
         end
  end.

(** Maximal runs of characters on which [p] is constant. *)
Fixpoint runs (p : N → bool) (s : str) : list (bool * str) :=
  match s with
  | [] => []
  | c :: s' =>
    match runs p s' with
    | (b, r) :: rs =>
      if bool_decide (b = p c) then (b, c :: r) :: rs else (p c, [c]) :: (b, r) :: rs
    | [] => [(p c, [c])]
    end
  end.

(** [xs[:n]] for a Python int [n]: a negative [n] counts from the end. *)
Definition slice_to {A} (n : Z) (xs : list A) : list A :=
  if (0 <=? n)%Z then take (Z.to_nat n) xs
  else take (length xs - Z.to_nat (- n)) xs.

(** ** Regular expressions

    Every pattern the module hands to [re.findall] is a sequence of
    single-character classes under a greedy counted repetition, and of
    [\b]. [Rep cls lo hi] is [cls{lo,hi}], with [hi = None] for no upper
    bound. *)
Inductive item :=
| Rep (cls : N → bool) (lo : nat) (hi : option nat)
| WordB.

Abbreviation regex := (list item).

Definition lit (a : ascii) : item := Rep (N.eqb (ch a)) 1 (Some 1).
Definition opt (cls : N → bool) : item := Rep cls 0 (Some 1).
Definition plus (cls : N → bool) : item := Rep cls 1 None.
Definition exactly (n : nat) (cls : N → bool) : item := Rep cls n (Some n).

(** Length of the longest prefix of [s] made of [cls] characters, at most
    [cap] long. *)
Fixpoint span (cls : N → bool) (cap : option nat) (s : str) : nat :=
  match s with
  | [] => 0
  | c :: s' =>
    match cap with
    | Some O => 0
    | _ => if cls c then S (span cls (Nat.pred <$> cap) s') else 0
    end
  end.

(** Greedy search: [f (lo + d)], then [f (lo + d - 1)], ... down to [f lo];
    the first success wins. *)
Fixpoint backtrack {A} (f : nat → option A) (lo d : nat) : option A :=
  match f (lo + d) with
  | Some r => Some r
  | None =>
    match d with
    | O => None
    | S d' => backtrack f lo d'
    end
  end.

(** The character before the current position, once [m] was consumed. *)
Definition prev_after (prev : option N) (m : str) : option N :=
  match last m with
  | Some c => Some c
  | None => prev
  end.

(** What a match is made of: one piece per item of the pattern. *)
Definition piece_ok (it : item) (p : str) : Prop :=
  match it with
  | Rep cls lo hi =>
    lo ≤ length p ∧ (∀ h, hi = Some h → length p ≤ h) ∧ Forall (λ c, cls c = true) p
  | WordB => p = []
  end.

(** The least number of characters a pattern consumes. *)
Fixpoint min_len (r : regex) : nat :=
  match r with
  | [] => 0
  | Rep _ lo _ :: r' => lo + min_len r'
  | WordB :: r' => min_len r'
  end.

(** The most characters a pattern consumes, when it is bounded. *)
Fixpoint max_len (r : regex) : option nat :=
  match r with
  | [] => Some 0
  | Rep _ _ hi :: r' => h ← hi; n ← max_len r'; Some (h + n)
  | WordB :: r' => max_len r'
  end.

(** The classes the first character of a match can come from. *)
Fixpoint first_class (r : regex) (c : N) : bool :=
  match r with
  | [] => false
  | Rep cls lo _ :: r' => cls c || (lo =? 0) && first_class r' c
  | WordB :: r' => first_class r' c
  end.

(** ** urllib.parse

    [urlsplit], [urlparse], [unquote] and [parse_qs] as CPython 3.11 has
    them, for the default arguments the module calls them with. *)
Record ParseResult := {
  scheme : str;
  netloc : str;
  path : str;
  params : str;
  query : str;
  fragment : str;
}.

Definition scheme_chars (c : N) : bool :=
  ascii_alpha c || ascii_digit c || one_of "+-." c.

Definition uses_params : list str :=
  u <$> [""; "ftp"; "hdl"; "prospero"; "http"; "imap"; "https"; "shttp";
         "rtsp"; "rtspu"; "sip"; "sips"; "mms"; "sftp"; "tel"]%string.

(** [_splitnetloc(url, 2)] *)
Definition _splitnetloc (url : str) : str * str :=
  let delim :=
    foldl (λ delim c, from_option (Nat.min delim) delim (find_char_from c 2 url))
          (length url) (u "/?#") in
  (drop 2 (take delim url), drop delim url).

(** [_splitparams(url)] *)
Definition _splitparams (url : str) : str * str :=
  let cut i := (take i url, drop (S i) url) in
  match rfind_char (ch "/") url with
  | Some slash =>
    match find_char_from (ch ";") slash url with
    | Some i => cut i
    | None => (url, [])
    end
  | None =>
    match find_char (ch ";") url with
    | Some i => cut i
    | None => (take (length url - 1) url, url)   (* i = -1 *)
    end
  end.

Definition hex_value (c : N) : option N :=
  if ascii_digit c then Some (c - 48)%N
  else if between 97 102 c then Some (c - 87)%N
  else if between 65 70 c then Some (c - 55)%N
  else None.

(** One item of [string.split('%')] after the first, in [_unquote_impl]. *)
Definition unquote_item (it : str) : list N :=
  match it with
  | a :: b :: rest =>
    match hex_value a, hex_value b with
    | Some x, Some y => (16 * x + y)%N :: rest
    | _, _ => ch "%" :: it
    end
  | _ => ch "%" :: it
  end.

(** [_unquote_impl]: the octets an ASCII text stands for. *)
Definition unquote_to_bytes (s : str) : list N :=
  match split_on (ch "%") s with
  | first :: items => first ++ (items ≫= unquote_item)
  | [] => s
  end.

(** The values a query gives to a name, in their order. *)
Definition values_of (k : str) (fields : list (str * str)) : list str :=
  (filter (λ nv, nv.1 = k) fields).*2.

(** ** BeautifulSoup

    The parse tree: tags with their attributes and children, and the
    strings [get_text] returns. Comments and the other strings that
    [get_text] passes over are left out of the tree. *)
Inductive node :=
| Text (s : str)
| Tag (name : str) (attrs : gmap str str) (children : list node).

(** [tag.descendants]: every node below, in document order. *)
Fixpoint descendants (n : node) : list node :=
  match n with
  | Text _ => []
  | Tag _ _ cs =>
    (fix below (cs : list node) : list node :=
       match cs with
       | [] => []
       | c :: cs' => c :: descendants c ++ below cs'
       end) cs
  end.

Definition tag_name (n : node) : option str :=
  match n with
  | Text _ => None
  | Tag name _ _ => Some name
  end.

(** [tag.get(key)] *)
Definition get_attr (key : string) (n : node) : option str :=
  match n with
  | Text _ => None
  | Tag _ attrs _ => attrs !! u key
  end.

Definition named (names : list string) (n : node) : bool :=
  match tag_name n with
  | Some name => bool_decide (name ∈ u <$> names)
  | None => false
  end.

(** [tag.find_all(names)] with a further test on the tag. *)
Definition find_all (names : list string) (test : node → bool) (root : node) : list node :=
  filter (λ n, named names n && test n) (descendants root).

(** [tag.find(names)] *)
Definition find (names : list string) (test : node → bool) (root : node) : option node :=
  head (find_all names test root).

Definition no_test (n : node) : bool := true.

(** [href=True] *)
Definition has_href (n : node) : bool := bool_decide (is_Some (get_attr "href" n)).

(** The strings below a node, in document order. *)
Definition all_strings (n : node) : list str :=
  match n with
  | Text s => [s]
  | Tag _ _ _ => descendants n ≫= λ d, match d with Text s => [s] | Tag _ _ _ => [] end
  end.

(** ** The scraper's data *)

Record Response := {
  ok : bool;          (* the truth value of a [requests.Response] *)
  content : bytes;
}.

(** [polite_delay_s] is a float in the module, which compares it with 0
    and hands it to [time.sleep]; it is a rational here. *)
Record ScrapeConfig := {
  request_timeout_s : Z;
  max_faculty_pages : Z;
  max_faculty_per_page : Z;
  include_linkedin : bool;
  polite_delay_s : Q;
  user_agent : str;
}.

(** The dictionary [scrape_college_info] returns. *)
Record CollegeData := {
  website : str;
  cd_emails : list str;
  cd_phones : list str;
  faculty_pages : list str;
}.

(** One entry of [faculty_members]; [linkedin_profiles] is the key the
    workflow adds when it looks a person up. *)
Record Faculty := {
  name : str;
  emails : list str;
  source : str;
  text : str;
  page : str;
  linkedin_profiles : option (list str);
}.

Record Contacts := {
  c_emails : list str;
  c_phones : list str;
}.

(** The [config] dictionary under [meta]. *)
Record ConfigEcho := {
  e_request_timeout_s : Z;
  e_max_faculty_pages : Z;
  e_max_faculty_per_page : Z;
  e_include_linkedin : bool;
  e_polite_delay_s : Q;
}.

(** The dictionary [meta]; [error] is the key set when no website is found. *)
Record Meta := {
  config : ConfigEcho;
  error : option str;
}.

(** [meta["config"]] for a configuration. *)
Definition config_echo (cfg : ScrapeConfig) : ConfigEcho :=
  {| e_request_timeout_s := request_timeout_s cfg;
     e_max_faculty_pages := max_faculty_pages cfg;
     e_max_faculty_per_page := max_faculty_per_page cfg;
     e_include_linkedin := include_linkedin cfg;
     e_polite_delay_s := polite_delay_s cfg |}.

(** [run_workflow] builds two dictionaries, [meta] and [results], and
    [results["meta"]] is a reference to the first: what is written to
    [meta] later shows in the result. The dictionaries live in a store,
    and [results] holds the address of [meta]. *)
Abbreviation ref := positive.
Abbreviation store := (gmap ref Meta).

Record Results := {
  college_name : str;
  college_website : option str;
  college_contacts : Contacts;
  faculty_members : list Faculty;
  meta : ref;
}.

(** The result as its caller reads it: [results] with the references
    followed. *)
Record WorkflowResult := {
  r_college_name : str;
  r_college_website : option str;
  r_college_contacts : Contacts;
  r_faculty_members : list Faculty;
  r_meta : option Meta;
}.

Definition read_result (rs : Results * store) : WorkflowResult :=
  {| r_college_name := college_name rs.1;
     r_college_website := college_website rs.1;
     r_college_contacts := college_contacts rs.1;
     r_faculty_members := faculty_members rs.1;
     r_meta := rs.2 !! meta rs.1 |}.

Definition set_error (e : str) (m : Meta) : Meta :=
  {| config := config m; error := Some e |}.

Definition set_linkedin (ps : list str) (f : Faculty) : Faculty :=
  {| name := name f; emails := emails f; source := source f; text := text f;
     page := page f; linkedin_profiles := Some ps |}.

(** *** The handler of [api/scrape.py]

    The body of a POST once [json.loads] has read it: an object whose
    fields, where present, have the JSON types the handler converts
    ([int(...)] of an integer, [bool(...)] of a boolean). A field is
    [None] when the key is absent; for [college_name] also when it is
    [null]. *)
Record PostData := {
  d_college_name : option str;
  d_max_faculty_pages : option Z;
  d_max_faculty_per_page : option Z;
  d_include_linkedin : option bool;
  d_request_timeout_s : option Z;
  d_polite_delay_s : option Q;
}.

(** What the handler writes: [{"ok": False, "error": ...}] or
    [{"ok": True, "data": results}], under a status code. *)
Inductive payload :=
| Refused (error : string)
| Served (data : Results * store).

Record Reply := {
  status : Z;
  body : payload;
}.

(** The default of [ScrapeConfig.user_agent]. *)
Definition default_user_agent : str :=
  u "Mozilla/5.0 (Windows NT 10.0; Win64; x64) " ++
  u "AppleWebKit/537.36 (KHTML, like Gecko) " ++
  u "Chrome/120.0.0.0 Safari/537.36".

(** Hard limits to keep serverless predictable: the configuration that
    [do_POST] builds from the body. *)
Definition post_config (data : PostData) : ScrapeConfig :=
  let max_faculty_pages := Z.min (default 2%Z (d_max_faculty_pages data)) 5 in
  let max_faculty_per_page := Z.min (default 8%Z (d_max_faculty_per_page data)) 25 in
  let include_linkedin := default false (d_include_linkedin data) in
  (* If you enable LinkedIn search, force stricter limits *)
  let max_faculty_pages :=
    if include_linkedin then Z.min max_faculty_pages 2 else max_faculty_pages in
  let max_faculty_per_page :=
    if include_linkedin then Z.min max_faculty_per_page 5 else max_faculty_per_page in
  {| request_timeout_s := Z.min (default 10%Z (d_request_timeout_s data)) 15;
     max_faculty_pages := max_faculty_pages;
     max_faculty_per_page := max_faculty_per_page;
     include_linkedin := include_linkedin;
     polite_delay_s := default 0%Q (d_polite_delay_s data);
     user_agent := default_user_agent |}.

(** ** A small web, for the examples *)

(** Tables that know no character outside ASCII. *)
Definition ascii_only : Unicode :=
  {| u_class := λ _, Other; u_fold := id; u_lower := id |}.

Definition elt (name : string) (attrs : list (string * string)) (children : list node) : node :=
  Tag (u name) (list_to_map ((λ kv, (u kv.1, u kv.2)) <$> attrs)) children.

Definition document (children : list node) : node := elt "[document]" [] children.

Definition search_page : node :=
  document
    [elt "a" [("class", "result__a");
              ("href", "//duckduckgo.com/l/?uddg=https%3A%2F%2Fx.edu&rut=0")]
         [Text (u "X University")]].

Definition home_page : node :=
  document
    [elt "p" [] [Text (u "Write to faculty@x.edu")];
     elt "a" [("href", "/faculty")] [Text (u "Faculty")];
     elt "a" [("href", "/staff")] [Text (u "Our staff")]].

Definition faculty_page : node :=
  document
    [elt "table" []
       [elt "tr" [] [elt "td" [] [Text (u "Dr. A")]; elt "td" [] [Text (u "a@x.edu")]];
        elt "tr" [] [elt "td" [] [Text (u "Dr. B")]; elt "td" [] [Text (u "b@x.edu")]]];
     elt "div" [("class", "card Staff-Profile")]
       [elt "h3" [] [Text (u "Prof. A")]; Text (u " a@x.edu ")];
     elt "div" [("class", "member")]
       [elt "b" [] [Text (u "Dr. C")]; Text (u "c@x.edu")]].

Definition sample_web : list (str * bytes) :=
  [(u "https://html.duckduckgo.com/html/?q=X+official+website", "search");
   (u "https://x.edu", "home");
   (u "https://x.edu/faculty", "faculty");
   (u "https://x.edu/staff", "faculty")]%string.

(** The state of the sample network is the list of the requests made. *)
Definition sample_get (url agent : str) (timeout : Z) (w : list str)
  : option Response * list str :=
  (match list_find (λ kv, kv.1 = url) sample_web with
   | Some (_, (_, body)) => Some {| ok := true; content := body |}
   | None => None
   end,
   w ++ [url]).

(** A network on which every request raises. *)
Definition dead_get (url agent : str) (timeout : Z) (w : list str)
  : option Response * list str := (None, w ++ [url]).

Definition sample_sleep (d : Q) (w : list str) : list str := w.

Definition sample_soup (content : bytes) : node :=
  if String.eqb content "search" then search_page
  else if String.eqb content "home" then home_page
  else if String.eqb content "faculty" then faculty_page
  else document [].

Definition sample_urljoin (base href : str) : str := base ++ href.

(** Every run of octets from 128 on decoded to one U+FFFD, and no host
    rejected. *)
Definition replacement (bs : list N) : str := [65533%N].

Definition accept_netloc (host : str) : bool := false.

Definition sample_config (pages per_page : Z) : ScrapeConfig :=
  {| request_timeout_s := 10; max_faculty_pages := pages; max_faculty_per_page := per_page;
     include_linkedin := false; polite_delay_s := 0; user_agent := u "Mozilla/5.0" |}.

(** A request for the sample web. *)
Definition sample_post (name : string) (pages per_page : option Z) (linkedin : bool) : PostData :=
  {| d_college_name := Some (u name); d_max_faculty_pages := pages;
     d_max_faculty_per_page := per_page; d_include_linkedin := Some linkedin;
     d_request_timeout_s := None; d_polite_delay_s := None |}.

(** * The module, over its environment *)

Section Scraper.

(** The Unicode tables of the interpreter. *)
Context (U : Unicode).

(** [bytes.decode("utf-8", "replace")] on a run of octets from 128 on, and
    the netlocs [urlsplit] raises [ValueError] for when it validates one
    with a bracketed host or a non-ASCII character. *)
Context (utf8_replace : list N → str) (netloc_rejected : str → bool).

(** [urllib.parse.urljoin] and [BeautifulSoup(content, "html.parser")],
    which builds a tree from any content. *)
Context (urljoin : str → str → str) (BeautifulSoup : bytes → node).

(** The network and the clock. [session_get url agent timeout] is one
    [session.get]: a response, or [None] when it raises. *)
Context {World : Type}.
Context (session_get : str → str → Z → World → option Response * World).
Context (sleep : Q → World → World).

(** *** Character classes *)

(** [\d] of a [str] pattern. *)
Definition is_digit (c : N) : bool :=
  if is_ascii c then ascii_digit c else bool_decide (u_class U c = Decimal).

(** [\s] of a [str] pattern, and what [str.strip()] removes: TAB..CR,
    FS..US and the space, then the white space of Unicode. *)
Definition is_space (c : N) : bool :=
  if is_ascii c then between 9 13 c || between 28 32 c
  else bool_decide (u_class U c = Space).

(** [\w] of a [str] pattern: alphanumeric or the underscore. *)
Definition is_word (c : N) : bool :=
  if is_ascii c then ascii_alpha c || ascii_digit c || (c =? 95)%N
  else bool_decide (u_class U c ∈ [Decimal; Alnum]).

Definition lstrip (s : str) : str := lstrip_by is_space s.

Definition rstrip (s : str) : str := reverse (lstrip (reverse s)).

(** [s.strip()] *)
Definition strip (s : str) : str := rstrip (lstrip s).

(** [s.lower()] *)
Definition lower (s : str) : str :=
  if forallb is_ascii s then to_lower <$> s else u_lower U s.

(** *** The matcher *)

Definition wordy (c : option N) : bool := from_option is_word false c.

(** [\b]: exactly one side of the position is a word character. *)
Definition at_boundary (prev : option N) (s : str) : bool :=
  xorb (wordy prev) (wordy (head s)).

(** [match_seq r prev s]: match [r] at the start of [s], [prev] being the
    character before it. Returns the matched text and what follows. *)
Fixpoint match_seq (r : regex) (prev : option N) (s : str) : option (str * str) :=
  match r with
  | [] => Some ([], s)
  | WordB :: r' =>
    if at_boundary prev s then match_seq r' prev s else None
  | Rep cls lo hi :: r' =>
    let n := span cls hi s in
    if n <? lo then None
    else backtrack
           (λ k, '(m, rest) ← match_seq r' (prev_after prev (take k s)) (drop k s);
                 Some (take k s ++ m, rest))
           lo (n - lo)
  end.

(** The scan of [re.findall]: leftmost matches that do not overlap.
    [skip] counts the characters of the last match still to pass. *)
Fixpoint scan (r : regex) (prev : option N) (skip : nat) (s : str) : list str :=
  match s with
  | [] =>
    match skip, match_seq r prev [] with
    | O, Some (m, _) => [m]
    | _, _ => []
    end
  | c :: s' =>
    match skip with
    | S k => scan r (Some c) k s'
    | O =>
      match match_seq r prev s with
      | Some (m, _) => m :: scan r (Some c) (length m - 1) s'
      | None => scan r (Some c) 0 s'
      end
    end
  end.

(** [re.findall(r, text)] for a pattern without groups. *)
Definition findall (r : regex) (text : str) : list str := scan r None 0 text.

(** *** The text helpers *)

Definition email_local (c : N) : bool :=
  ascii_alpha c || ascii_digit c || one_of "._%+-" c.

Definition email_domain (c : N) : bool :=
  ascii_alpha c || ascii_digit c || one_of ".-" c.

(** [\b[A-Za-z0-9._%+-]+@[A-Za-z0-9.-]+\.[A-Za-z]{2,}\b] *)
Definition email_pattern : regex :=
  [WordB; plus email_local; lit "@"; plus email_domain; lit ".";
   Rep ascii_alpha 2 None; WordB].

Definition extract_emails (text : str) : list str :=
  sorted_set (findall email_pattern text).

(** [[-.\s]] *)
Definition sep (c : N) : bool := one_of "-." c || is_space c.

(** [\+?91[-.\s]?\d{10}] *)
Definition phone_pattern_1 : regex :=
  [opt (N.eqb (ch "+")); lit "9"; lit "1"; opt sep; exactly 10 is_digit].

(** [\+?\d{1,3}[-.\s]?\(?\d{3}\)?[-.\s]?\d{3}[-.\s]?\d{4}] *)
Definition phone_pattern_2 : regex :=
  [opt (N.eqb (ch "+")); Rep is_digit 1 (Some 3); opt sep;
   opt (N.eqb (ch "(")); exactly 3 is_digit; opt (N.eqb (ch ")"));
   opt sep; exactly 3 is_digit; opt sep; exactly 4 is_digit].

(** [\d{3}[-.\s]?\d{3}[-.\s]?\d{4}] *)
Definition phone_pattern_3 : regex :=
  [exactly 3 is_digit; opt sep; exactly 3 is_digit; opt sep; exactly 4 is_digit].

Definition phone_patterns : list regex :=
  [phone_pattern_1; phone_pattern_2; phone_pattern_3].

(** The list [phones] once the loop over the patterns is done. *)
Definition phone_matches (text : str) : list str :=
  foldl (λ phones pattern, phones ++ findall pattern text) [] phone_patterns.

Definition extract_phones (text : str) : list str :=
  sorted_set (strip <$> filter (λ p, strip p ≠ []) (phone_matches text)).

(** *** urllib.parse, continued *)

(** [urlsplit(url)]: scheme, netloc, path, query and fragment, or [None]
    where it raises [ValueError]. *)
Definition urlsplit (url : str) : option (str * str * str * str * str) :=
  let url := lstrip_by (λ c, c <=? 32)%N url in
  let url := filter (λ c, c ∉ [9; 10; 13]%N) url in
  let '(scheme, url) :=
    match find_char (ch ":") url with
    | Some (S i) =>
      if from_option ascii_alpha false (head url) && forallb scheme_chars (take (S i) url)
      then (to_lower <$> take (S i) url, drop (S (S i)) url)
      else ([], url)
    | _ => ([], url)
    end in
  let '(netloc, url) :=
    if bool_decide (take 2 url = u "//") then _splitnetloc url else ([], url) in
  let lb := bool_decide (ch "[" ∈ netloc) in
  let rb := bool_decide (ch "]" ∈ netloc) in
  if xorb lb rb then None
  else if (lb || negb (forallb is_ascii netloc)) && netloc_rejected netloc then None
  else
    let '(url, fragment) := default (url, []) (split_once (ch "#") url) in
    let '(url, query) := default (url, []) (split_once (ch "?") url) in
    Some (scheme, netloc, url, query, fragment).

Definition urlparse (url : str) : option ParseResult :=
  '(scheme, netloc, url, query, fragment) ← urlsplit url;
  let '(url, params) :=
    if bool_decide (scheme ∈ uses_params) && bool_decide (ch ";" ∈ url)
    then _splitparams url else (url, []) in
  Some {| scheme := scheme; netloc := netloc; path := url; params := params;
          query := query; fragment := fragment |}.

(** [bs.decode("utf-8", "replace")]: ASCII octets stand for themselves and
    end any sequence before them. *)
Definition decode (bs : list N) : str :=
  '(ascii, run) ← runs is_ascii bs; if ascii : bool then run else utf8_replace run.

(** [unquote(s)]: the ASCII stretches have their escapes replaced. *)
Definition unquote (s : str) : str :=
  if bool_decide (ch "%" ∈ s)
  then '(ascii, run) ← runs is_ascii s;
       if ascii : bool then decode (unquote_to_bytes run) else run
  else s.

(** [parse_qsl(qs)] *)
Definition parse_qsl (qs : str) : list (str * str) :=
  name_value ← split_on (ch "&") qs;
  match split_once (ch "=") name_value with
  | Some (n, v) =>
    if bool_decide (v = []) then []
    else [(unquote (replace_char (ch "+") (u " ") n),
           unquote (replace_char (ch "+") (u " ") v))]
  | None => []
  end.

(** [parse_qs(qs)] *)
Definition parse_qs (qs : str) : gmap str (list str) :=
  foldl (λ parsed_result '(n, v), <[n := default [] (parsed_result !! n) ++ [v]]> parsed_result)
        ∅ (parse_qsl qs).

(** DDG HTML results often use https://duckduckgo.com/l/?uddg=<url-encoded> *)
Definition _unwrap_duckduckgo_redirect (href : str) : str :=
  match urlparse href with
  | Some parsed =>
    if endswith (netloc parsed) (u "duckduckgo.com") && startswith (path parsed) (u "/l/")
    then match parse_qs (query parsed) !! u "uddg" with
         | Some (v :: _) => v
         | _ => href
         end
    else href
  | None => href   (* except Exception: pass *)
  end.

(** *** BeautifulSoup, continued *)

(** [tag.get_text(sep, strip=True)] and [tag.get_text(sep)]. *)
Definition get_text_strip (sep : str) (n : node) : str :=
  join sep (filter (λ s, s ≠ []) (strip <$> all_strings n)).

Definition get_text (sep : str) (n : node) : str := join sep (all_strings n).

(** The values of a [class] attribute. *)
Definition class_values (n : node) : option (list str) :=
  findall [plus (λ c, negb (is_space c))] <$> get_attr "class" n.

(** A test on [class_]: some value passes it, or the values joined do. *)
Definition class_is (test : str → bool) (n : node) : bool :=
  match class_values n with
  | Some vs => existsb test vs || test (join (u " ") vs)
  | None => false
  end.

(** The letter a character counts as when a pattern ignores case. *)
Definition fold_case (c : N) : N := if is_ascii c then to_lower c else u_fold U c.

(** [re.compile(r"faculty|staff|profile|member", re.I).search(s)] *)
Definition profile_class (s : str) : bool :=
  existsb (λ k, contains (fold_case <$> s) (u k)) ["faculty"; "staff"; "profile"; "member"]%string.

(** *** Effects *)

Definition IO (A : Type) : Type := World → A * World.

Definition ret {A} (a : A) : IO A := λ w, (a, w).

Definition bind {A B} (m : IO A) (k : A → IO B) : IO B :=
  λ w, let '(a, w') := m w in k a w'.

Notation "x <~ m ;; k" := (bind m (λ x, k))
  (at level 100, m at next level, right associativity).

Section Scraper_instance.
Context (cfg : ScrapeConfig).

Definition truthy (resp : option Response) : bool :=
  match resp with
  | Some r => ok r
  | None => false
  end.

Definition _get (url : str) : IO (option Response) :=
  λ w,
    let attempt := session_get url (user_agent cfg) (request_timeout_s cfg) in
    match attempt w with
    | (Some r, w) => (Some r, w)
    | (None, w) =>
      match attempt (sleep (2 # 10) w) with
      | (Some r, w) => (Some r, w)
      | (None, w) => (None, w)
      end
    end.

Definition _maybe_delay : IO unit :=
  λ w, if negb (Qle_bool (polite_delay_s cfg) 0) then (tt, sleep (polite_delay_s cfg) w) else (tt, w).

Definition search_url (q : str) : str :=
  u "https://html.duckduckgo.com/html/?q=" ++ replace_char (ch " ") (u "+") q.

Definition search_college_website (college_name : str) : IO (option str) :=
  resp <~ _get (search_url (college_name ++ u " official website"));;
  match resp with
  | Some r =>
    if ok r then
      ret (match find ["a"] (class_is (λ v, bool_decide (v = u "result__a")))
                       (BeautifulSoup (content r)) with
           | Some result =>
             let href := _unwrap_duckduckgo_redirect (default [] (get_attr "href" result)) in
             if startswith href (u "http://") || startswith href (u "https://")
             then Some href else None
           | None => None
           end)
    else ret None
  | None => ret None
  end.

Definition faculty_keywords : list str :=
  u <$> ["faculty"; "staff"; "professor"; "teachers"; "department"; "people"; "directory"]%string.

(** The loop over the links of the homepage. *)
Definition candidate_pages (website : str) (soup : node) : list str :=
  foldl (λ pages link,
           let link_text := lower (get_text [] link) in
           let link_href := lower (default [] (get_attr "href" link)) in
           if existsb (λ k, contains link_text k || contains link_href k) faculty_keywords
           then let full_url := urljoin website (default [] (get_attr "href" link)) in
                if bool_decide (full_url ∈ pages) then pages else pages ++ [full_url]
           else pages)
        [] (find_all ["a"] has_href soup).

Definition scrape_college_info (website : str) : IO CollegeData :=
  resp <~ _get website;;
  if truthy resp then
    let soup := BeautifulSoup (from_option content EmptyString resp) in
    let text := get_text (u " ") soup in
    ret {| website := website;
           cd_emails := extract_emails text;
           cd_phones := extract_phones text;
           faculty_pages := candidate_pages website soup |}
  else ret {| website := website; cd_emails := []; cd_phones := []; faculty_pages := [] |}.

Definition _guess_name_from_row (cells : list node) : str :=
  let first := from_option (get_text_strip (u " ")) [] (head cells) in
  if existsb ascii_alpha first then first else u "Unknown".

(** Strategy 1: tables *)
Definition table_records (faculty_url : str) (soup : node) : list Faculty :=
  table ← find_all ["table"] no_test soup;
  row ← find_all ["tr"] no_test table;
  let cells := find_all ["td"; "th"] no_test row in
  if length cells <? 2 then []
  else
    let row_text := join (u " ") (get_text_strip (u " ") <$> cells) in
    let row_emails := extract_emails row_text in
    match row_emails with
    | [] => []
    | _ => [{| name := _guess_name_from_row cells; emails := row_emails;
               source := u "table"; text := row_text; page := faculty_url;
               linkedin_profiles := None |}]
    end.

(** Strategy 2: profile-like blocks *)
Definition section_records (faculty_url : str) (soup : node) : list Faculty :=
  section ← find_all ["div"; "section"; "article"] (class_is profile_class) soup;
  let section_text := get_text_strip (u " ") section in
  let section_emails := extract_emails section_text in
  match section_emails with
  | [] => []
  | _ =>
    let name_tag := find ["h2"; "h3"; "h4"; "strong"; "b"] no_test section in
    [{| name := from_option (get_text_strip (u " ")) (u "Unknown") name_tag;
        emails := section_emails; source := u "section";
        text := take 300 section_text; page := faculty_url;
        linkedin_profiles := None |}]
  end.

(** The key of the de-duplication. *)
Definition email_key (item : Faculty) : str := join (u ",") (sorted (emails item)).

(** De-dup by email: one turn of the loop over [faculty_list]. *)
Definition dedup_step (st : gset str * list Faculty) (item : Faculty) : gset str * list Faculty :=
  let key := email_key item in
  if bool_decide (key ≠ []) && bool_decide (key ∉ st.1)
  then ({[key]} ∪ st.1, st.2 ++ [item])
  else st.

Definition dedup (faculty_list : list Faculty) : list Faculty :=
  (foldl dedup_step (∅, []) faculty_list).2.

(** The de-duplication loop, told by recursion on the list: the records
    it keeps, starting from the keys in [seen]. *)
Fixpoint keep (seen : gset str) (faculty_list : list Faculty) : list Faculty :=
  match faculty_list with
  | [] => []
  | item :: rest =>
    if bool_decide (email_key item ≠ []) && bool_decide (email_key item ∉ seen)
    then item :: keep ({[email_key item]} ∪ seen) rest
    else keep seen rest
  end.

(** [faculty_list] as it stands before the de-duplication. *)
Definition faculty_list_of (faculty_url : str) (soup : node) : list Faculty :=
  table_records faculty_url soup ++ section_records faculty_url soup.

Definition scrape_faculty_page (faculty_url : str) : IO (list Faculty) :=
  resp <~ _get faculty_url;;
  if truthy resp then
    let soup := BeautifulSoup (from_option content EmptyString resp) in
    ret (dedup (faculty_list_of faculty_url soup))
  else ret [].

Definition search_linkedin (name college_name : str) : IO (list str) :=
  resp <~ _get (search_url (name ++ u " " ++ college_name ++ u " site:linkedin.com"));;
  if truthy resp then
    let soup := BeautifulSoup (from_option content EmptyString resp) in
    ret (take 5 (filter (λ href, contains href (u "linkedin.com") = true)
                        ((λ link, _unwrap_duckduckgo_redirect (default [] (get_attr "href" link)))
                           <$> find_all ["a"] (class_is (λ v, bool_decide (v = u "result__a"))) soup)))
  else ret [].

(** The loop over [faculty_list] when [include_linkedin] is set. *)
Fixpoint add_linkedin (college_name : str) (faculty_list : list Faculty) : IO (list Faculty) :=
  match faculty_list with
  | [] => ret []
  | f :: rest =>
    let name := if bool_decide (name f = []) then u "Unknown" else name f in
    f' <~ (if bool_decide (name ≠ u "Unknown")
           then (_ <~ _maybe_delay;;
                 profiles <~ search_linkedin name college_name;;
                 ret (set_linkedin profiles f))
           else ret f);;
    rest' <~ add_linkedin college_name rest;;
    ret (f' :: rest')
  end.

(** The loop over [faculty_pages]; [members] is [results["faculty_members"]]. *)
Fixpoint visit_pages (college_name : str) (pages : list str) (members : list Faculty)
  : IO (list Faculty) :=
  match pages with
  | [] => ret members
  | page :: rest =>
    _ <~ _maybe_delay;;
    scraped <~ scrape_faculty_page page;;
    let faculty_list := slice_to (max_faculty_per_page cfg) scraped in
    faculty_list <~ (if include_linkedin cfg then add_linkedin college_name faculty_list
                     else ret faculty_list);;
    visit_pages college_name rest (members ++ faculty_list)
  end.

Definition meta_ref : ref := 1%positive.

Definition run_workflow (college_name : str) : IO (Results * store) :=
  let meta : Meta :=
    {| config := config_echo cfg; error := None |} in
  let heap : store := {[ meta_ref := meta ]} in
  let results :=
    {| college_name := college_name; college_website := None;
       college_contacts := {| c_emails := []; c_phones := [] |};
       faculty_members := []; meta := meta_ref |} in
  website <~ search_college_website college_name;;
  match website with
  | None | Some [] =>
    ret (results, alter (set_error (u "website_not_found")) meta_ref heap)
  | Some site =>
    _ <~ _maybe_delay;;
    college_data <~ scrape_college_info site;;
    let faculty_pages := slice_to (max_faculty_pages cfg) (faculty_pages college_data) in
    members <~ visit_pages college_name faculty_pages [];;
    ret ({| college_name := college_name; college_website := Some site;
            college_contacts := {| c_emails := cd_emails college_data;
                                   c_phones := cd_phones college_data |};
            faculty_members := members; meta := meta_ref |}, heap)
  end.

End Scraper_instance.

(** *** [do_POST]

    [parsed] is the body as [json.loads] read it, [None] when the body is
    not JSON. *)
Definition do_POST (parsed : option PostData) : IO Reply :=
  match parsed with
  | None => ret {| status := 400; body := Refused "invalid_json" |}
  | Some data =>
    let college_name := strip (default [] (d_college_name data)) in
    if bool_decide (college_name = [])
    then ret {| status := 400; body := Refused "college_name_required" |}
    else
      results <~ run_workflow (post_config data) college_name;;
      ret {| status := 200; body := Served results |}
  end.

(** The test of [scrape_college_info] on a link: its text or its href
    has one of the keywords, letter case apart. *)
Definition personnel_link (link : node) : bool :=
  existsb (λ k, contains (lower (get_text [] link)) k ||
                contains (lower (default [] (get_attr "href" link))) k)
          faculty_keywords.

(** [urljoin(website, link.get("href"))] *)
Definition link_url (website : str) (link : node) : str :=
  urljoin website (default [] (get_attr "href" link)).

(** * Properties *)

(** ** The order of [sorted] *)

Lemma str_leb_refl a : str_leb a a = true.
Proof.
  induction a as [|x a IH]; simpl; [done|].
  rewrite N.eqb_refl, IH. by rewrite orb_true_r.
Qed.

Lemma str_leb_total a b : str_leb a b = true ∨ str_leb b a = true.
Proof.
  revert b. induction a as [|x a IH]; intros [|y b]; simpl; auto.
  destruct (N.ltb_spec x y); simpl; [auto|].
  destruct (N.ltb_spec y x); simpl; [auto|].
  assert (x = y) as -> by lia. rewrite N.eqb_refl. simpl. apply IH.
Qed.

Lemma str_leb_trans a b c :
  str_leb a b = true → str_leb b c = true → str_leb a c = true.
Proof.
  revert b c. induction a as [|x a IH]; intros [|y b] [|z c]; simpl; try done.
  intros H1 H2.
  apply orb_true_iff in H1 as [H1|[H1 H1']%andb_true_iff];
    apply orb_true_iff in H2 as [H2|[H2 H2']%andb_true_iff];
    rewrite ?N.ltb_lt, ?N.eqb_eq in *; subst.
  - apply orb_true_iff; left. apply N.ltb_lt. lia.
  - apply orb_true_iff; left. by apply N.ltb_lt.
  - apply orb_true_iff; left. by apply N.ltb_lt.
  - apply orb_true_iff; right. rewrite N.eqb_refl. simpl. eauto.
Qed.

Lemma str_leb_antisym a b :
  str_leb a b = true → str_leb b a = true → a = b.
Proof.
  revert b. induction a as [|x a IH]; intros [|y b]; simpl; try done.
  intros H1 H2.
  apply orb_true_iff in H1 as [H1|[H1 H1']%andb_true_iff];
    apply orb_true_iff in H2 as [H2|[H2 H2']%andb_true_iff];
    rewrite ?N.ltb_lt, ?N.eqb_eq in *; subst; try lia.
  f_equal. by apply IH.
Qed.

Global Instance str_le_refl : Reflexive str_le.
Proof. intros a. apply str_leb_refl. Qed.

Global Instance str_le_total : Total str_le.
Proof. intros a b. apply str_leb_total. Qed.

Global Instance str_le_trans : Transitive str_le.
Proof. intros a b c. apply str_leb_trans. Qed.

Global Instance str_le_antisym : AntiSymm (=) str_le.
Proof. intros a b. apply str_leb_antisym. Qed.

Lemma sorted_sorted xs : StronglySorted str_le (sorted xs).
Proof. apply (StronglySorted_merge_sort str_le). Qed.

Lemma sorted_perm xs : sorted xs ≡ₚ xs.
Proof. apply merge_sort_Permutation. Qed.

(** [sorted] gives one answer for every order its input comes in. *)
Lemma sorted_any_order xs ys : xs ≡ₚ ys → sorted xs = sorted ys.
Proof.
  intros Hp. apply (StronglySorted_unique str_le); try apply sorted_sorted.
  by rewrite !sorted_perm.
Qed.

Lemma elem_of_sorted_set x xs : x ∈ sorted_set xs ↔ x ∈ xs.
Proof.
  unfold sorted_set, set_of. rewrite sorted_perm, elem_of_elements.
  apply elem_of_list_to_set.
Qed.

Lemma NoDup_sorted_set xs : NoDup (sorted_set xs).
Proof. unfold sorted_set. rewrite sorted_perm. apply NoDup_elements. Qed.

Lemma sorted_set_nil xs : sorted_set xs = [] ↔ xs = [].
Proof.
  split.
  - intros H. destruct xs as [|x xs]; [done|].
    assert (x ∈ sorted_set (x :: xs)) as Hx by (apply elem_of_sorted_set; left).
    rewrite H in Hx. by apply elem_of_nil in Hx.
  - intros ->. done.
Qed.

Lemma filter_eq_absent {A} `{EqDecision A} (x : A) l : x ∉ l → filter (x =.) l = [].
Proof.
  induction l as [|y l IH]; [done|].
  intros [Hne Hl]%not_elem_of_cons. rewrite filter_cons.
  case_decide; [done|]. by apply IH.
Qed.

(** An element of a list without repetition is there once. *)
Lemma NoDup_once {A} `{EqDecision A} (x : A) l :
  NoDup l → x ∈ l → length (filter (x =.) l) = 1.
Proof.
  induction 1 as [|y l Hy Hl IH]; [by intros ?%elem_of_nil|].
  rewrite filter_cons. intros Hx. case_decide as Hxy.
  - subst y. simpl. by rewrite filter_eq_absent.
  - apply elem_of_cons in Hx as [?|Hx]; [done|]. by apply IH.
Qed.

(** ** The matcher *)

Lemma backtrack_Some {A} (f : nat → option A) lo d r :
  backtrack f lo d = Some r → ∃ k, lo ≤ k ≤ lo + d ∧ f k = Some r.
Proof.
  induction d as [|d IH]; simpl; destruct (f (lo + _)) eqn:Hf.
  - intros [= ->]. exists (lo + 0). split; [lia|done].
  - done.
  - intros [= ->]. exists (lo + S d). split; [lia|done].
  - intros (k & ? & ?)%IH. exists k. split; [lia|done].
Qed.

Lemma span_le_length cls cap s : span cls cap s ≤ length s.
Proof.
  revert cap. induction s as [|c s IH]; intros cap; simpl; [lia|].
  destruct cap as [[|h]|]; [lia| |]; destruct (cls c); try lia.
  - specialize (IH (Nat.pred <$> Some (S h))). lia.
  - specialize (IH (Nat.pred <$> None)). lia.
Qed.

Lemma span_le_cap cls h s : span cls (Some h) s ≤ h.
Proof.
  revert h. induction s as [|c s IH]; intros h; simpl; [lia|].
  destruct h as [|h]; [lia|]. destruct (cls c); [|lia].
  specialize (IH h). simpl. lia.
Qed.

Lemma span_take cls cap s k :
  k ≤ span cls cap s → Forall (λ c, cls c = true) (take k s).
Proof.
  revert cap k. induction s as [|c s IH]; intros cap k; simpl.
  - intros. rewrite take_nil. constructor.
  - destruct k as [|k]; [constructor|].
    destruct cap as [[|h]|]; [lia| |]; destruct (cls c) eqn:Hc; try lia;
      intros Hk; simpl; constructor; try done; eapply IH; apply Nat.succ_le_mono, Hk.
Qed.

(** A match is a prefix of the text, cut into the pieces of the pattern. *)
Lemma match_seq_sound r prev s m rest :
  match_seq r prev s = Some (m, rest) →
  s = m ++ rest ∧ ∃ pieces, m = concat pieces ∧ Forall2 piece_ok r pieces.
Proof.
  revert prev s m rest. induction r as [|[cls lo hi|] r IH]; intros prev s m rest; simpl.
  - intros [= <- <-]. split; [done|]. exists []. split; [done|constructor].
  - destruct (span cls hi s <? lo) eqn:Hlo; [done|].
    apply Nat.ltb_ge in Hlo.
    intros (k & Hk & Hf)%backtrack_Some.
    destruct (match_seq r _ (drop k s)) as [[m' rest']|] eqn:Hm; simplify_eq/=.
    apply IH in Hm as (Hs & pieces & -> & Hp).
    split.
    + by rewrite <-(assoc_L (++)), <-Hs, take_drop.
    + exists (take k s :: pieces). split; [done|].
      constructor; [|done]. simpl.
      assert (k ≤ span cls hi s) by lia.
      assert (k ≤ length s) by (pose proof (span_le_length cls hi s); lia).
      rewrite length_take. split_and!; [lia| |by eapply span_take].
      intros h ->. pose proof (span_le_cap cls h s). lia.
  - destruct (at_boundary prev s); [|done].
    intros (Hs & pieces & -> & Hp)%IH. split; [done|].
    exists ([] :: pieces). split; [done|]. by constructor.
Qed.

Lemma pieces_min_len r pieces :
  Forall2 piece_ok r pieces → min_len r ≤ length (concat pieces).
Proof.
  induction 1 as [|it p r pieces Hp _ IH]; simpl; [lia|].
  rewrite length_app. destruct it; simpl in *; [|lia]. destruct Hp. lia.
Qed.

Lemma match_seq_min_len r prev s m rest :
  match_seq r prev s = Some (m, rest) → min_len r ≤ length m.
Proof. intros (_ & pieces & -> & Hp)%match_seq_sound. by apply pieces_min_len. Qed.

Lemma pieces_head r pieces c :
  Forall2 piece_ok r pieces → head (concat pieces) = Some c → first_class r c = true.
Proof.
  induction 1 as [|it p r pieces Hp _ IH]; simpl; [done|].
  destruct it as [cls lo hi|]; simpl in *.
  - destruct Hp as (Hlo & _ & Hcls). destruct p as [|x p]; simpl in *.
    + intros ->%IH. assert (lo = 0) as -> by lia. by rewrite orb_true_r.
    + intros [= ->]. apply Forall_cons in Hcls as [-> _]. done.
  - subst p. done.
Qed.

Lemma piece_ok_reverse it p : piece_ok it p → piece_ok it (reverse p).
Proof.
  destruct it; simpl; [|by intros ->].
  rewrite length_reverse. intros (? & ? & ?). split_and!; [done..|].
  by apply Forall_reverse.
Qed.

Lemma pieces_last r pieces c :
  Forall2 piece_ok r pieces → last (concat pieces) = Some c →
  first_class (reverse r) c = true.
Proof.
  intros Hp Hl. apply (pieces_head _ (reverse (reverse <$> pieces))).
  - apply Forall2_reverse, Forall2_fmap_r.
    eapply Forall2_impl; [done|]. apply piece_ok_reverse.
  - rewrite <-Hl, <-head_reverse. f_equal.
    clear. induction pieces as [|p ps IH]; [done|].
    rewrite fmap_cons, reverse_cons, concat_app, IH. simpl.
    by rewrite app_nil_r, reverse_app.
Qed.

(** Every match of [findall] is a stretch of the text. *)
Lemma scan_infix r prev skip s m :
  m ∈ scan r prev skip s → ∃ before after, s = before ++ m ++ after.
Proof.
  revert prev skip. induction s as [|c s IH]; intros prev skip; simpl.
  - destruct skip; [|by intros ?%elem_of_nil].
    destruct (match_seq r prev []) as [[m' rest]|] eqn:Hm; [|by intros ?%elem_of_nil].
    intros ->%list_elem_of_singleton.
    apply match_seq_sound in Hm as [Hs _]. by exists [], rest.
  - assert (∀ p k, m ∈ scan r p k s → ∃ before after, c :: s = before ++ m ++ after) as Hs.
    { intros p k (before & after & ->)%IH. by exists (c :: before), after. }
    destruct skip; [|by apply Hs].
    destruct (match_seq r prev (c :: s)) as [[m' rest]|] eqn:Hm; [|by apply Hs].
    intros [->|?]%elem_of_cons; [|by eapply Hs].
    apply match_seq_sound in Hm as [-> _]. by exists [], rest.
Qed.

(** Every match of [findall] is a match of the pattern somewhere. *)
Lemma scan_matches r prev skip s m :
  m ∈ scan r prev skip s → ∃ p t rest, match_seq r p t = Some (m, rest).
Proof.
  revert prev skip. induction s as [|c s IH]; intros prev skip; simpl.
  - destruct skip; [|by intros ?%elem_of_nil].
    destruct (match_seq r prev []) as [[m' rest]|] eqn:Hm; [|by intros ?%elem_of_nil].
    intros ->%list_elem_of_singleton. eauto.
  - destruct skip; [|by apply IH].
    destruct (match_seq r prev (c :: s)) as [[m' rest]|] eqn:Hm; [|by apply IH].
    intros [->|?]%elem_of_cons; [eauto|by eapply IH].
Qed.

(** [str_le] is the lexicographic order: [a] runs out first, or the two
    part ways at a smaller character of [a]. *)
Lemma str_le_lexicographic a b :
  str_le a b ↔
  a `prefix_of` b ∨
  ∃ common x y a' b', a = common ++ x :: a' ∧ b = common ++ y :: b' ∧ (x < y)%N.
Proof.
  unfold str_le. revert b. induction a as [|x a IH]; intros b; simpl.
  - split; [|done]. intros _. left. apply prefix_nil.
  - destruct b as [|y b].
    + split; [done|]. intros [[k Hk]|(common & ? & ? & ? & ? & _ & Hb & _)]; [done|].
      by destruct common.
    + rewrite orb_true_iff, andb_true_iff, N.ltb_lt, N.eqb_eq, IH. split.
      * intros [Hlt|[-> [[k ->]|(common & x' & y' & a' & b' & -> & -> & Hlt)]]].
        -- right. by exists [], x, y, a, b.
        -- left. by exists k.
        -- right. by exists (y :: common), x', y', a', b'.
      * intros [[k [= -> ->]]|(common & x' & y' & a' & b' & Ha & Hb & Hlt)].
        -- right. split; [done|]. left. by exists k.
        -- destruct common as [|z common]; simplify_eq/=; [by left|].
           right. split; [done|]. right. by exists common, x', y', a', b'.
Qed.

(** ** [extract_emails] *)

Lemma elem_of_extract_emails text e :
  e ∈ extract_emails text ↔ e ∈ findall email_pattern text.
Proof. apply elem_of_sorted_set. Qed.

Lemma findall_infix r text m :
  m ∈ findall r text → ∃ before after, text = before ++ m ++ after.
Proof. apply scan_infix. Qed.

Lemma findall_min_len r text m : m ∈ findall r text → min_len r ≤ length m.
Proof. intros (p & t & rest & Hm)%scan_matches. by eapply match_seq_min_len. Qed.

(** An address found has at least the six characters of [a@b.cd]. *)
Lemma extract_emails_length text e : e ∈ extract_emails text → 6 ≤ length e.
Proof. intros He%elem_of_extract_emails. apply (findall_min_len email_pattern text e He). Qed.

(** C7: for every text, [extract_emails] returns a list in lexicographic
    order with no entry twice, and a second run on the same text returns
    the same list, whatever order the intermediate set is read in. *)
Theorem extract_emails_sorted_unique (text : str) :
  StronglySorted str_le (extract_emails text) ∧
  NoDup (extract_emails text) ∧
  ∀ order, order ≡ₚ elements (set_of (findall email_pattern text)) →
           sorted order = extract_emails text.
Proof.
  split_and!.
  - apply sorted_sorted.
  - apply NoDup_sorted_set.
  - intros order Horder. by apply sorted_any_order.
Qed.

(** C4, as the code has it: the entries of [extract_emails] are pairwise
    different as they are written (the comparison is exact, letter case
    included); an address is listed exactly when the pattern found it, and
    every entry stands in the text letter for letter. *)
Theorem extract_emails_exact_dedup (text : str) :
  NoDup (extract_emails text) ∧
  (∀ e, e ∈ extract_emails text ↔ e ∈ findall email_pattern text) ∧
  (∀ e, e ∈ extract_emails text → ∃ before after, text = before ++ e ++ after).
Proof.
  split_and!.
  - apply NoDup_sorted_set.
  - apply elem_of_extract_emails.
  - intros e He%elem_of_extract_emails. by apply (findall_infix email_pattern).
Qed.

(** ** [extract_phones] *)

Lemma lstrip_keep s :
  from_option is_space false (head s) = false → lstrip s = s.
Proof. destruct s as [|c s]; [done|]. unfold lstrip. simpl. by intros ->. Qed.

Lemma rstrip_keep s :
  from_option is_space false (last s) = false → rstrip s = s.
Proof.
  intros H. unfold rstrip. rewrite lstrip_keep, reverse_involutive; [done|].
  by rewrite head_reverse.
Qed.

Lemma strip_keep s :
  from_option is_space false (head s) = false →
  from_option is_space false (last s) = false → strip s = s.
Proof. intros Hh Hl. unfold strip. rewrite lstrip_keep by done. by apply rstrip_keep. Qed.

Lemma digit_not_space c : is_digit c = true → is_space c = false.
Proof.
  unfold is_digit, is_space, ascii_digit, between. destruct (is_ascii c).
  - intros [?%N.leb_le ?%N.leb_le]%andb_true_iff.
    apply orb_false_iff; split; apply andb_false_iff;
      rewrite !N.leb_gt; lia.
  - intros H%bool_decide_eq_true. rewrite H. done.
Qed.

Lemma literal_not_space (a : ascii) c :
  is_space (ch a) = false → (ch a =? c)%N = true → is_space c = false.
Proof. by intros H <-%N.eqb_eq. Qed.

(** A match of a phone pattern starts and ends with a plus sign or a
    digit, so [strip] leaves it as it is. *)
Lemma phone_first c r :
  r ∈ phone_patterns → first_class r c = true → is_space c = false.
Proof.
  unfold phone_patterns. rewrite !elem_of_cons, elem_of_nil.
  intros [->|[->|[->|[]]]];
    unfold phone_pattern_1, phone_pattern_2, phone_pattern_3, lit, opt, exactly;
    cbn [first_class Nat.eqb andb];
    rewrite ?orb_true_iff, ?andb_true_iff, ?orb_false_r;
    intros H; destruct_or?; destruct_and?;
    try (by apply digit_not_space);
    try (by eapply literal_not_space; [|done]).
Qed.

Lemma phone_last c r :
  r ∈ phone_patterns → first_class (reverse r) c = true → is_space c = false.
Proof.
  unfold phone_patterns. rewrite !elem_of_cons, elem_of_nil.
  intros [->|[->|[->|[]]]];
    unfold phone_pattern_1, phone_pattern_2, phone_pattern_3, lit, opt, exactly;
    cbn [first_class Nat.eqb andb reverse rev_append];
    rewrite ?orb_true_iff, ?andb_true_iff, ?orb_false_r;
    intros H; destruct_or?; destruct_and?;
    try (by apply digit_not_space); try done.
Qed.

Lemma phone_min_len r : r ∈ phone_patterns → 10 ≤ min_len r.
Proof.
  unfold phone_patterns. rewrite !elem_of_cons, elem_of_nil.
  intros [->|[->|[->|[]]]]; simpl; lia.
Qed.

Lemma elem_of_phone_matches text p :
  p ∈ phone_matches text ↔ ∃ r, r ∈ phone_patterns ∧ p ∈ findall r text.
Proof.
  unfold phone_matches, phone_patterns. simpl. rewrite !elem_of_app. split.
  - intros [[H|H]|H]; eexists; (split; [|exact H]);
      rewrite !elem_of_cons; auto.
  - intros (r & Hr & H). rewrite !elem_of_cons, elem_of_nil in Hr.
    destruct Hr as [->|[->|[->|[]]]]; auto.
Qed.

Lemma phone_match_strip text p :
  p ∈ phone_matches text → strip p = p ∧ p ≠ [].
Proof.
  intros (r & Hr & Hp)%elem_of_phone_matches.
  pose proof (phone_min_len _ Hr) as Hmin.
  apply scan_matches in Hp as (prev & t & rest & Hm).
  pose proof (match_seq_min_len _ _ _ _ _ Hm) as Hlen.
  apply match_seq_sound in Hm as (_ & pieces & -> & Hpieces).
  split; [|intros Hnil; rewrite Hnil in Hlen; simpl in Hlen; lia].
  apply strip_keep.
  - destruct (head (concat pieces)) as [c|] eqn:Hh; [|done]. simpl.
    eapply phone_first; [done|]. by eapply pieces_head.
  - destruct (last (concat pieces)) as [c|] eqn:Hl; [|done]. simpl.
    eapply phone_last; [done|]. by eapply pieces_last.
Qed.

(** What [extract_phones] lists is what the patterns found. *)
Lemma elem_of_extract_phones text p :
  p ∈ extract_phones text ↔ p ∈ phone_matches text.
Proof.
  unfold extract_phones. rewrite elem_of_sorted_set, list_elem_of_fmap. split.
  - intros (q & -> & [Hq Hin]%list_elem_of_filter).
    by destruct (phone_match_strip _ _ Hin) as [-> _].
  - intros Hin. destruct (phone_match_strip _ _ Hin) as [Hs Hne].
    exists p. split; [done|]. apply list_elem_of_filter. by rewrite Hs.
Qed.

(** C5: a phone number that two different patterns of [extract_phones]
    both find in a text stands exactly once in the list returned. *)
Theorem extract_phones_once (text p : str) (i j : nat) (ri rj : regex) :
  i ≠ j →
  phone_patterns !! i = Some ri → phone_patterns !! j = Some rj →
  p ∈ findall ri text → p ∈ findall rj text →
  length (filter (p =.) (extract_phones text)) = 1.
Proof.
  intros _ Hi%list_elem_of_lookup_2 _ Hp _.
  apply NoDup_once; [apply NoDup_sorted_set|].
  apply elem_of_extract_phones, elem_of_phone_matches. eauto.
Qed.

(** ** [_unwrap_duckduckgo_redirect] *)

Lemma parse_qs_fold (k : str) (fields : list (str * str)) (m : gmap str (list str)) :
  foldl (λ parsed_result '(n, v), <[n := default [] (parsed_result !! n) ++ [v]]> parsed_result)
        m fields !! k
  = match values_of k fields with
    | [] => m !! k
    | vs => Some (default [] (m !! k) ++ vs)
    end.
Proof.
  revert m. induction fields as [|[n v] fields IH]; intros m; [done|].
  simpl. rewrite IH. unfold values_of. rewrite filter_cons. simpl.
  destruct (decide (n = k)) as [->|Hne]; simpl.
  - rewrite lookup_insert_eq. simpl.
    change (list_fmap _ _ snd ?l) with (l.*2).
    destruct ((filter _ fields).*2); [done|]. by rewrite <-(assoc_L (++)).
  - by rewrite lookup_insert_ne.
Qed.

(** [parse_qs(qs)[k]] is the list of the values of [k], when there is one. *)
Lemma parse_qs_lookup (k qs : str) :
  parse_qs qs !! k
  = match values_of k (parse_qsl qs) with
    | [] => None
    | vs => Some vs
    end.
Proof. unfold parse_qs. rewrite parse_qs_fold. by destruct (values_of _ _). Qed.

Lemma split_on_absent c s : c ∉ s → split_on c s = [s].
Proof.
  induction s as [|x s IH]; [done|].
  intros [Hne Hs]%not_elem_of_cons. simpl.
  destruct (N.eqb_spec x c); [done|]. by rewrite IH.
Qed.

(** A query of the one field [name=value] gives [name] the value decoded:
    a plus sign read as a space, then the escapes replaced. *)
Lemma parse_qsl_single qs n v :
  ch "&" ∉ qs → split_once (ch "=") qs = Some (n, v) → v ≠ [] →
  parse_qsl qs = [(unquote (replace_char (ch "+") (u " ") n),
                   unquote (replace_char (ch "+") (u " ") v))].
Proof.
  intros Hamp Hsplit Hv. unfold parse_qsl. rewrite split_on_absent by done.
  rewrite bind_cons, Hsplit, bool_decide_eq_false_2 by done. by rewrite app_nil_r.
Qed.

(** C3, as the code has it: [_unwrap_duckduckgo_redirect] is total. When
    [urlparse] accepts the href, its netloc ends with [duckduckgo.com], its
    path starts with [/l/] and the query gives [uddg] a value, the result
    is the first such value, decoded; in every other case (the parameter
    missing, another host or path, [urlparse] raising) it is the href
    unchanged. The redirect to https://example.edu unwraps to it. *)
Theorem unwrap_redirect (href : str) :
  (∀ parsed v,
     urlparse href = Some parsed →
     endswith (netloc parsed) (u "duckduckgo.com") = true →
     startswith (path parsed) (u "/l/") = true →
     head (values_of (u "uddg") (parse_qsl (query parsed))) = Some v →
     _unwrap_duckduckgo_redirect href = v) ∧
  (∀ parsed,
     urlparse href = Some parsed →
     endswith (netloc parsed) (u "duckduckgo.com") = false ∨
     startswith (path parsed) (u "/l/") = false ∨
     values_of (u "uddg") (parse_qsl (query parsed)) = [] →
     _unwrap_duckduckgo_redirect href = href) ∧
  (urlparse href = None → _unwrap_duckduckgo_redirect href = href) ∧
  _unwrap_duckduckgo_redirect (u "https://duckduckgo.com/l/?uddg=https%3A%2F%2Fexample.edu")
  = u "https://example.edu".
Proof.
  unfold _unwrap_duckduckgo_redirect. split_and!.
  - intros parsed v -> -> -> Hv. simpl. rewrite parse_qs_lookup.
    by destruct (values_of _ _) as [|? ?]; simplify_eq/=.
  - intros parsed -> [->|[->|Hv]]; [done|by rewrite andb_false_r|].
    rewrite parse_qs_lookup, Hv. by destruct (_ && _).
  - by intros ->.
  - by vm_compute.
Qed.

(** ** [scrape_faculty_page] *)

Lemma dedup_loop seen deduped faculty_list :
  (foldl dedup_step (seen, deduped) faculty_list).2 = deduped ++ keep seen faculty_list.
Proof.
  revert seen deduped. induction faculty_list as [|item rest IH]; intros seen deduped; simpl.
  - by rewrite app_nil_r.
  - unfold dedup_step at 2. simpl. destruct (_ && _); simpl; rewrite IH; [|done].
    by rewrite <-(assoc_L (++)).
Qed.

Lemma dedup_keep faculty_list : dedup faculty_list = keep ∅ faculty_list.
Proof. unfold dedup. by rewrite dedup_loop. Qed.

Lemma keep_sublist seen l : keep seen l `sublist_of` l.
Proof.
  revert seen. induction l as [|item rest IH]; intros seen; simpl; [done|].
  destruct (_ && _); [by apply sublist_skip|by apply sublist_cons].
Qed.

Lemma keep_fresh seen l kept :
  kept ∈ keep seen l → email_key kept ≠ [] ∧ email_key kept ∉ seen.
Proof.
  revert seen. induction l as [|item rest IH]; intros seen; simpl; [by intros ?%elem_of_nil|].
  destruct (bool_decide (email_key item ≠ [])) eqn:Hne; simpl; [|by apply IH].
  destruct (bool_decide (email_key item ∉ seen)) eqn:Hseen; simpl; [|by apply IH].
  apply bool_decide_eq_true in Hne, Hseen.
  intros [->|Hin]%elem_of_cons; [done|].
  apply IH in Hin as [? Hfresh]. split; [done|].
  intros ?. apply Hfresh, elem_of_union. by right.
Qed.

Lemma keep_NoDup seen l : NoDup (email_key <$> keep seen l).
Proof.
  revert seen. induction l as [|item rest IH]; intros seen; simpl; [constructor|].
  destruct (_ && _); [|by apply IH]. rewrite fmap_cons. constructor; [|by apply IH].
  intros (kept & Hk & [_ Hfresh]%keep_fresh)%list_elem_of_fmap.
  apply Hfresh, elem_of_union. left. by apply elem_of_singleton.
Qed.

Lemma keep_covers seen l item :
  item ∈ l → email_key item ≠ [] → email_key item ∉ seen →
  ∃ kept, kept ∈ keep seen l ∧ email_key kept = email_key item.
Proof.
  revert seen. induction l as [|x rest IH]; intros seen; simpl; [by intros ?%elem_of_nil|].
  intros Hin Hne Hseen.
  destruct (bool_decide (email_key x ≠ [])) eqn:Hx; simpl.
  - destruct (bool_decide (email_key x ∉ seen)) eqn:Hxs; simpl.
    + destruct (decide (email_key x = email_key item)) as [Heq|Hdiff].
      * exists x. split; [by left|done].
      * apply elem_of_cons in Hin as [->|Hin]; [done|].
        destruct (IH ({[email_key x]} ∪ seen) Hin Hne) as (kept & ? & ?).
        { rewrite not_elem_of_union, not_elem_of_singleton. by split. }
        exists kept. split; [by right|done].
    + apply bool_decide_eq_false in Hxs.
      apply elem_of_cons in Hin as [->|Hin]; [done|]. by apply IH.
  - apply bool_decide_eq_false in Hx.
    apply elem_of_cons in Hin as [->|Hin]; [done|]. by apply IH.
Qed.

Lemma keep_first seen l kept :
  kept ∈ keep seen l →
  ∃ earlier later, l = earlier ++ kept :: later ∧
                   ∀ item, item ∈ earlier → email_key item ≠ email_key kept.
Proof.
  revert seen. induction l as [|x rest IH]; intros seen; simpl; [by intros ?%elem_of_nil|].
  assert (∀ seen', kept ∈ keep seen' rest → email_key x ≠ email_key kept →
          ∃ earlier later, x :: rest = earlier ++ kept :: later ∧
                           ∀ item, item ∈ earlier → email_key item ≠ email_key kept) as Hrest.
  { intros seen' (earlier & later & -> & Hfirst)%IH Hx.
    exists (x :: earlier), later. split; [done|].
    intros item [->|?]%elem_of_cons; auto. }
  destruct (bool_decide (email_key x ≠ [])) eqn:Hne; simpl.
  - destruct (bool_decide (email_key x ∉ seen)) eqn:Hxs; simpl.
    + intros [->|Hin]%elem_of_cons.
      * exists [], rest. split; [done|]. by intros ? ?%elem_of_nil.
      * apply (Hrest _ Hin). apply keep_fresh in Hin as [_ Hfresh].
        intros Heq. apply Hfresh, elem_of_union. left. by apply elem_of_singleton.
    + apply bool_decide_eq_false in Hxs. intros Hin. apply (Hrest _ Hin).
      apply keep_fresh in Hin as [_ ?]. intros Heq. rewrite Heq in Hxs. by apply Hxs, dec_stable.
  - apply bool_decide_eq_false in Hne. intros Hin. apply (Hrest _ Hin).
    apply keep_fresh in Hin as [? _]. intros Heq. rewrite Heq in Hne. by apply Hne.
Qed.

Lemma join_nonempty sp parts :
  parts ≠ [] → Forall (λ p, p ≠ []) parts → join sp parts ≠ [].
Proof.
  destruct parts as [|p ps]; [done|]. intros _ [Hp _]%Forall_cons. simpl.
  destruct ps; [done|]. by destruct p.
Qed.

Lemma email_key_nonempty item :
  emails item ≠ [] → Forall (λ e, e ≠ []) (emails item) → email_key item ≠ [].
Proof.
  intros Hne Hall. apply join_nonempty.
  - intros Hs. apply Hne, Permutation_nil_r. by rewrite <-Hs, sorted_perm.
  - by rewrite sorted_perm.
Qed.

Lemma extract_emails_nonempty text : Forall (λ e, e ≠ []) (extract_emails text).
Proof.
  apply Forall_forall. intros e He%extract_emails_length ->. simpl in He. lia.
Qed.

(** What each strategy emits: the addresses found in the row or block,
    at least one, and the tag of the strategy. *)
Lemma table_records_spec faculty_url soup item :
  item ∈ table_records faculty_url soup →
  ∃ row_text, emails item = extract_emails row_text ∧ emails item ≠ [] ∧
              source item = u "table" ∧ page item = faculty_url.
Proof.
  unfold table_records.
  intros (table & Hitem & _)%list_elem_of_bind.
  apply list_elem_of_bind in Hitem as (row & Hitem & _).
  destruct (length _ <? 2); [by apply elem_of_nil in Hitem|].
  destruct (extract_emails _) as [|e es] eqn:He; [by apply elem_of_nil in Hitem|].
  apply list_elem_of_singleton in Hitem as ->. simpl.
  eexists. rewrite He. done.
Qed.

Lemma section_records_spec faculty_url soup item :
  item ∈ section_records faculty_url soup →
  ∃ section_text, emails item = extract_emails section_text ∧ emails item ≠ [] ∧
                  source item = u "section" ∧ page item = faculty_url.
Proof.
  unfold section_records.
  intros (section & Hitem & _)%list_elem_of_bind.
  destruct (extract_emails _) as [|e es] eqn:He; [by apply elem_of_nil in Hitem|].
  apply list_elem_of_singleton in Hitem as ->. simpl.
  eexists. rewrite He. done.
Qed.

Lemma faculty_list_spec faculty_url soup item :
  item ∈ faculty_list_of faculty_url soup →
  emails item ≠ [] ∧ email_key item ≠ [] ∧
  (source item = u "table" ∨ source item = u "section").
Proof.
  unfold faculty_list_of.
  intros [(t & He & Hne & Hs & _)%table_records_spec
         |(t & He & Hne & Hs & _)%section_records_spec]%elem_of_app;
    (split_and!; [done| |by auto]);
    (apply email_key_nonempty; [done|]); rewrite He; apply extract_emails_nonempty.
Qed.

(** The effects compose as a state monad does. *)
Lemma bind_ret_l {A B} (a : A) (k : A → IO B) w : bind (ret a) k w = k a w.
Proof. done. Qed.

Lemma bind_ret_r {A} (m : IO A) w : bind m ret w = m w.
Proof. unfold bind, ret. by destruct (m w). Qed.

Lemma bind_assoc {A B C} (m : IO A) (k : A → IO B) (h : B → IO C) w :
  bind (bind m k) h w = bind m (λ a, bind (k a) h) w.
Proof. unfold bind. by destruct (m w). Qed.

(** [_get] gives up exactly when both attempts raise, after one pause. *)
Lemma _get_None cfg url w :
  (_get cfg url w).1 = None ↔
  (session_get url (user_agent cfg) (request_timeout_s cfg) w).1 = None ∧
  (session_get url (user_agent cfg) (request_timeout_s cfg)
     (sleep (2 # 10) (session_get url (user_agent cfg) (request_timeout_s cfg) w).2)).1 = None.
Proof.
  unfold _get.
  destruct (session_get url _ _ w) as [[r|] w1]; simpl; [by split; [|intros []]|].
  destruct (session_get url _ _ (sleep _ w1)) as [[r|] w2]; simpl; [by split; [|intros []]|done].
Qed.

Lemma scrape_faculty_page_result cfg faculty_url w :
  (scrape_faculty_page cfg faculty_url w).1
  = match (_get cfg faculty_url w).1 with
    | Some resp =>
      if ok resp then dedup (faculty_list_of faculty_url (BeautifulSoup (content resp)))
      else []
    | None => []
    end.
Proof.
  unfold scrape_faculty_page, bind, ret.
  destruct (_get cfg faculty_url w) as [[resp|] w']; simpl; [|done].
  by destruct (ok resp).
Qed.

(** C2: for every personnel page fetched, no record of the list returned
    has an empty email list; the list keeps the order of the records of
    the two strategies, no two of its records have the same key (the
    sorted addresses joined by commas), every record of the strategies has
    its key in the list, and the record listed for a key is the first
    with that key. *)
Theorem scrape_faculty_page_dedup cfg faculty_url w resp w' :
  _get cfg faculty_url w = (Some resp, w') → ok resp = true →
  let faculty_list := faculty_list_of faculty_url (BeautifulSoup (content resp)) in
  let deduped := (scrape_faculty_page cfg faculty_url w).1 in
  Forall (λ item, emails item ≠ []) deduped ∧
  deduped `sublist_of` faculty_list ∧
  NoDup (email_key <$> deduped) ∧
  (∀ item, item ∈ faculty_list →
           ∃ kept, kept ∈ deduped ∧ email_key kept = email_key item) ∧
  (∀ kept, kept ∈ deduped →
           ∃ earlier later, faculty_list = earlier ++ kept :: later ∧
                            ∀ item, item ∈ earlier → email_key item ≠ email_key kept).
Proof.
  intros Hget Hok faculty_list deduped.
  assert (deduped = keep ∅ faculty_list) as ->.
  { unfold deduped. by rewrite scrape_faculty_page_result, Hget; simpl; rewrite Hok, dedup_keep. }
  split_and!.
  - apply Forall_forall. intros item Hin.
    eapply faculty_list_spec, (sublist_subseteq _ _ (keep_sublist _ _)), Hin.
  - apply keep_sublist.
  - apply keep_NoDup.
  - intros item Hin. apply keep_covers; [done| |apply not_elem_of_empty].
    by eapply faculty_list_spec.
  - apply keep_first.
Qed.

(** A page that cannot be fetched gives no record. *)
Lemma scrape_faculty_page_failed cfg faculty_url w :
  truthy (_get cfg faculty_url w).1 = false → (scrape_faculty_page cfg faculty_url w).1 = [].
Proof.
  rewrite scrape_faculty_page_result. destruct (_get _ _ _).1 as [resp|]; [|done].
  simpl. by intros ->.
Qed.

(** C6, as the code has it: every record of the tabular strategy carries
    the tag [table], every record of the profile-block strategy the tag
    [section], and a record that [scrape_faculty_page] returns carries one
    of the two. *)
Theorem source_tags cfg faculty_url soup w :
  Forall (λ item, source item = u "table") (table_records faculty_url soup) ∧
  Forall (λ item, source item = u "section") (section_records faculty_url soup) ∧
  Forall (λ item, source item = u "table" ∨ source item = u "section")
         (scrape_faculty_page cfg faculty_url w).1.
Proof.
  split_and!.
  - apply Forall_forall. by intros item (? & ? & ? & ? & ?)%table_records_spec.
  - apply Forall_forall. by intros item (? & ? & ? & ? & ?)%section_records_spec.
  - rewrite scrape_faculty_page_result.
    destruct (_get _ _ _).1 as [resp|]; [|constructor].
    destruct (ok resp); [|constructor]. rewrite dedup_keep.
    apply Forall_forall. intros item Hin.
    eapply faculty_list_spec, (sublist_subseteq _ _ (keep_sublist _ _)), Hin.
Qed.

(** ** [run_workflow] *)

Lemma slice_to_length_le {A} n (xs : list A) : length (slice_to n xs) ≤ length xs.
Proof. unfold slice_to. destruct (0 <=? n)%Z; rewrite length_take; lia. Qed.

Lemma slice_to_length_bound {A} n (xs : list A) :
  (0 ≤ n)%Z → length (slice_to n xs) ≤ Z.to_nat n.
Proof.
  intros Hn. unfold slice_to. rewrite (proj2 (Z.leb_le 0 n)) by done.
  rewrite length_take. lia.
Qed.

Lemma slice_to_zero {A} (xs : list A) : slice_to 0 xs = [].
Proof. done. Qed.

Lemma add_linkedin_length cfg college_name faculty_list w :
  length (add_linkedin cfg college_name faculty_list w).1 = length faculty_list.
Proof.
  revert w. induction faculty_list as [|f rest IH]; intros w; [done|].
  simpl. unfold bind at 1.
  destruct (_ w) as [f' w1]. unfold bind at 1. specialize (IH w1).
  destruct (add_linkedin cfg college_name rest w1) as [rest' w2]. simpl in *. by rewrite IH.
Qed.

(** The members are the records of the pages visited, page after page. *)
Lemma visit_pages_chunks cfg college_name pages members w :
  (0 ≤ max_faculty_per_page cfg)%Z →
  ∃ per_page,
    (visit_pages cfg college_name pages members w).1 = members ++ concat per_page ∧
    length per_page = length pages ∧
    Forall (λ records, length records ≤ Z.to_nat (max_faculty_per_page cfg)) per_page.
Proof.
  intros Hper. revert members w.
  induction pages as [|page rest IH]; intros members w; simpl.
  { exists []. by rewrite app_nil_r. }
  unfold bind at 1. destruct (_maybe_delay cfg w) as [[] w1].
  unfold bind at 1. destruct (scrape_faculty_page cfg page w1) as [scraped w2].
  unfold bind at 1.
  pose proof (slice_to_length_bound _ scraped Hper) as Hslice.
  assert (∀ faculty_list w3,
            length faculty_list = length (slice_to (max_faculty_per_page cfg) scraped) →
            ∃ per_page,
              (visit_pages cfg college_name rest (members ++ faculty_list) w3).1
              = members ++ concat per_page ∧
              length per_page = S (length rest) ∧
              Forall (λ records, length records ≤ Z.to_nat (max_faculty_per_page cfg)) per_page)
    as Hstep.
  { intros faculty_list w3 Hlen.
    destruct (IH (members ++ faculty_list) w3) as (per_page & -> & Hn & Hall).
    exists (faculty_list :: per_page). simpl. split_and!.
    - by rewrite (assoc_L (++)).
    - by rewrite Hn.
    - constructor; [lia|done]. }
  destruct (include_linkedin cfg).
  - pose proof (add_linkedin_length cfg college_name
                  (slice_to (max_faculty_per_page cfg) scraped) w2) as Hlen.
    destruct (add_linkedin _ _ _ w2) as [faculty_list w3]. by apply Hstep.
  - by apply Hstep.
Qed.

Lemma concat_length_bound {A} (chunks : list (list A)) n :
  Forall (λ c, length c ≤ n) chunks → length (concat chunks) ≤ length chunks * n.
Proof.
  induction 1 as [|c chunks Hc _ IH]; simpl; [lia|]. rewrite length_app. lia.
Qed.

Lemma startswith_nonempty s p : startswith s p = true → p ≠ [] → s ≠ [].
Proof.
  unfold startswith. intros Hs%bool_decide_eq_true Hp ->.
  rewrite take_nil in Hs. done.
Qed.

(** A website that the search resolves is an absolute http(s) URL. *)
Lemma search_college_website_http cfg college_name w site :
  (search_college_website cfg college_name w).1 = Some site →
  startswith site (u "http://") = true ∨ startswith site (u "https://") = true.
Proof.
  unfold search_college_website, bind, ret.
  destruct (_get _ _ _) as [[resp|] w1]; simpl; [|done].
  destruct (ok resp); simpl; [|done].
  destruct (find _ _ _) as [result|]; [|done].
  destruct (startswith _ _ || startswith _ _) eqn:Hhttp; [|done].
  intros [= <-]. by apply orb_true_iff.
Qed.

Lemma search_college_website_nonempty cfg college_name w :
  (search_college_website cfg college_name w).1 ≠ Some [].
Proof. by intros [?|?]%search_college_website_http. Qed.

(** The search gives no website when its request fails. *)
Lemma search_college_website_failed cfg college_name w :
  truthy (_get cfg (search_url (college_name ++ u " official website")) w).1 = false →
  (search_college_website cfg college_name w).1 = None.
Proof.
  unfold search_college_website, bind, ret.
  destruct (_get _ _ _) as [[resp|] w1]; simpl; [|done]. by intros ->.
Qed.

(** The result when no website is found. *)
Lemma run_workflow_not_found cfg college_name w :
  (search_college_website cfg college_name w).1 = None →
  read_result (run_workflow cfg college_name w).1
  = {| r_college_name := college_name; r_college_website := None;
       r_college_contacts := {| c_emails := []; c_phones := [] |};
       r_faculty_members := [];
       r_meta := Some {| config := config_echo cfg;
                         error := Some (u "website_not_found") |} |}.
Proof.
  unfold run_workflow, bind.
  destruct (search_college_website cfg college_name w) as [website w1]. simpl.
  by intros ->.
Qed.

(** The result when a website is found: the stages that follow fill the
    contacts and the members, and [meta] stays as it was built. *)
Lemma run_workflow_found cfg college_name w site w1 :
  search_college_website cfg college_name w = (Some site, w1) →
  let college_data := (scrape_college_info cfg site (_maybe_delay cfg w1).2) in
  read_result (run_workflow cfg college_name w).1
  = {| r_college_name := college_name; r_college_website := Some site;
       r_college_contacts := {| c_emails := cd_emails college_data.1;
                                c_phones := cd_phones college_data.1 |};
       r_faculty_members :=
         (visit_pages cfg college_name
            (slice_to (max_faculty_pages cfg) (faculty_pages college_data.1)) []
            college_data.2).1;
       r_meta := Some {| config := config_echo cfg; error := None |} |}.
Proof.
  intros Hsearch. pose proof (search_college_website_nonempty cfg college_name w) as Hne.
  unfold run_workflow, bind. rewrite Hsearch in *. simpl in Hne.
  destruct site as [|c site]; [done|].
  destruct (_maybe_delay cfg w1) as [[] w2]. simpl.
  destruct (scrape_college_info cfg (c :: site) w2) as [college_data w3]. simpl.
  by destruct (visit_pages _ _ _ _ _) as [members w4].
Qed.

(** A lookup whose request fails finds no profile. *)
Lemma search_linkedin_failed cfg person college_name w :
  truthy (_get cfg (search_url (person ++ u " " ++ college_name ++ u " site:linkedin.com")) w).1
  = false →
  (search_linkedin cfg person college_name w).1 = [].
Proof.
  unfold search_linkedin, bind, ret.
  destruct (_get _ _ _) as [resp w1]; simpl. by intros ->.
Qed.

Lemma scrape_college_info_failed cfg site w :
  truthy (_get cfg site w).1 = false →
  (scrape_college_info cfg site w).1
  = {| website := site; cd_emails := []; cd_phones := []; faculty_pages := [] |}.
Proof.
  unfold scrape_college_info, bind, ret.
  destruct (_get cfg site w) as [resp w1]; simpl. by intros ->.
Qed.

Lemma visit_pages_nil cfg college_name members w :
  (visit_pages cfg college_name [] members w).1 = members.
Proof. done. Qed.

Lemma slice_to_nil {A} n : slice_to n (@nil A) = [].
Proof. unfold slice_to. by destruct (0 <=? n)%Z; rewrite take_nil. Qed.

(** C1: when the search gives no website (its request failing is one way,
    see [search_college_website_failed]), [run_workflow] returns a result:
    the name as given, no website, no contacts, no members, and under
    [meta] the configuration and the error [website_not_found]. The
    network is left as the search left it. *)
Theorem run_workflow_website_not_found cfg college w :
  (search_college_website cfg college w).1 = None →
  ∃ results heap,
    run_workflow cfg college w
    = (results, heap, (search_college_website cfg college w).2) ∧
    college_name results = college ∧
    college_website results = None ∧
    college_contacts results = {| c_emails := []; c_phones := [] |} ∧
    faculty_members results = [] ∧
    heap !! meta results
    = Some {| config := config_echo cfg; error := Some (u "website_not_found") |}.
Proof.
  intros Hnone. unfold run_workflow, bind.
  destruct (search_college_website cfg college w) as [website w1].
  simpl in Hnone. subst website. unfold ret. simpl.
  eexists _, _. split; [done|]. by split_and!.
Qed.

(** C8: with [max_faculty_pages = 0] the result has no faculty member,
    whatever pages the homepage offered. *)
Theorem no_pages_no_members cfg college_name w :
  max_faculty_pages cfg = 0%Z →
  r_faculty_members (read_result (run_workflow cfg college_name w).1) = [].
Proof.
  intros Hzero.
  destruct (search_college_website cfg college_name w) as [[site|] w1] eqn:Hsearch.
  - rewrite (run_workflow_found _ _ _ _ _ Hsearch). simpl.
    by rewrite Hzero, slice_to_zero.
  - rewrite run_workflow_not_found; [done|]. by rewrite Hsearch.
Qed.

(** C9: with [max_faculty_pages = P] and [max_faculty_per_page = R], both
    at least 0, the faculty members of the result are the records of at
    most [P] pages, at most [R] from each: at most [P * R] in all. *)
Theorem faculty_members_bound cfg college_name w :
  (0 ≤ max_faculty_pages cfg)%Z → (0 ≤ max_faculty_per_page cfg)%Z →
  let members := r_faculty_members (read_result (run_workflow cfg college_name w).1) in
  (∃ per_page,
     members = concat per_page ∧
     (Z.of_nat (length per_page) ≤ max_faculty_pages cfg)%Z ∧
     Forall (λ records, (Z.of_nat (length records) ≤ max_faculty_per_page cfg)%Z) per_page) ∧
  (Z.of_nat (length members) ≤ max_faculty_pages cfg * max_faculty_per_page cfg)%Z.
Proof.
  intros Hpages Hper members.
  assert (∃ per_page,
            members = concat per_page ∧
            length per_page ≤ Z.to_nat (max_faculty_pages cfg) ∧
            Forall (λ records, length records ≤ Z.to_nat (max_faculty_per_page cfg)) per_page)
    as (per_page & Hmembers & Hn & Hall).
  { unfold members.
    destruct (search_college_website cfg college_name w) as [[site|] w1] eqn:Hsearch.
    - rewrite (run_workflow_found _ _ _ _ _ Hsearch). simpl.
      set (data := scrape_college_info cfg site _).
      destruct (visit_pages_chunks cfg college_name
                  (slice_to (max_faculty_pages cfg) (faculty_pages data.1)) [] data.2 Hper)
        as (per_page & -> & Hn & Hall).
      exists per_page. split_and!; [done| |done].
      rewrite Hn. by apply slice_to_length_bound.
    - rewrite run_workflow_not_found by (by rewrite Hsearch). simpl.
      exists []. split_and!; [done|simpl; lia|constructor]. }
  split.
  - exists per_page. split_and!; [done|lia|].
    eapply Forall_impl; [done|]. simpl. lia.
  - rewrite Hmembers. pose proof (concat_length_bound _ _ Hall). nia.
Qed.

(** C10: the result carries an error tag exactly when the search gave no
    website. Otherwise [college_website] is the website found and [meta]
    holds the configuration alone, whatever the later requests do; a
    homepage that cannot be fetched leaves the contacts and the members
    empty, a personnel page that cannot be fetched gives no record, and
    a LinkedIn search that fails gives no profile. *)
Theorem error_tag_iff_no_website cfg college_name w :
  let website := (search_college_website cfg college_name w).1 in
  let result := read_result (run_workflow cfg college_name w).1 in
  (is_Some (r_meta result ≫= error) ↔ website = None) ∧
  r_college_website result = website ∧
  (∀ site, website = Some site →
           r_meta result = Some {| config := config_echo cfg; error := None |}) ∧
  (∀ site w1,
     search_college_website cfg college_name w = (Some site, w1) →
     truthy (_get cfg site (_maybe_delay cfg w1).2).1 = false →
     r_college_contacts result = {| c_emails := []; c_phones := [] |} ∧
     r_faculty_members result = []) ∧
  (∀ faculty_url w1,
     truthy (_get cfg faculty_url w1).1 = false →
     (scrape_faculty_page cfg faculty_url w1).1 = []) ∧
  (∀ person w1,
     truthy (_get cfg (search_url (person ++ u " " ++ college_name ++ u " site:linkedin.com"))
               w1).1 = false →
     (search_linkedin cfg person college_name w1).1 = []).
Proof.
  intros website result.
  split; [|split; [|split; [|split; [|split]]]];
    [| | | |apply scrape_faculty_page_failed
     |intros person w1; apply search_linkedin_failed];
    unfold website, result; clear website result;
    destruct (search_college_website cfg college_name w) as [[site|] w1] eqn:Hsearch;
    rewrite ?(run_workflow_found _ _ _ _ _ Hsearch);
    rewrite ?run_workflow_not_found by (by rewrite Hsearch); simpl; try done.
  intros ? ? [= <- <-] Hfail.
  rewrite (scrape_college_info_failed _ _ _ Hfail). simpl.
  by rewrite slice_to_nil.
Qed.

(** * Further properties *)

(** ** The shape of what the text helpers return *)

Lemma pieces_max_len r pieces n :
  Forall2 piece_ok r pieces → max_len r = Some n → length (concat pieces) ≤ n.
Proof.
  intros Hp. revert n. induction Hp as [|it p r pieces Hp _ IH]; intros n; simpl.
  - intros [= <-]. lia.
  - rewrite length_app. destruct it as [cls lo [h|]|]; simpl in *; try done.
    + destruct (max_len r) as [k|]; [|done]. simpl. intros [= <-].
      destruct Hp as (_ & Hh & _). specialize (Hh h eq_refl). specialize (IH k eq_refl). lia.
    + subst p. simpl. apply IH.
Qed.

Lemma piece_lit a p : piece_ok (lit a) p → p = [ch a].
Proof.
  simpl. intros (Hlo & Hhi & Hall). specialize (Hhi 1 eq_refl).
  destruct p as [|c [|? ?]]; simpl in *; try lia.
  apply Forall_cons in Hall as [->%N.eqb_eq _]. done.
Qed.

(** A match of the email pattern: local part, [@], domain, a dot and
    at least two letters. *)
Lemma email_match_shape prev t e rest :
  match_seq email_pattern prev t = Some (e, rest) →
  ∃ local domain tld,
    e = local ++ ch "@" :: domain ++ ch "." :: tld ∧
    local ≠ [] ∧ Forall (λ c, email_local c = true) local ∧
    domain ≠ [] ∧ Forall (λ c, email_domain c = true) domain ∧
    2 ≤ length tld ∧ Forall (λ c, ascii_alpha c = true) tld.
Proof.
  intros (_ & pieces & -> & Hp)%match_seq_sound. unfold email_pattern in Hp.
  repeat (apply Forall2_cons_inv_l in Hp as (? & ? & ? & Hp & ->)).
  apply Forall2_nil_inv_l in Hp as ->.
  repeat match goal with
         | H : piece_ok (lit _) _ |- _ => apply piece_lit in H; subst
         | H : piece_ok WordB _ |- _ => simpl in H; subst
         | H : piece_ok (plus _) _ |- _ => destruct H as (? & _ & ?)
         | H : piece_ok (Rep _ _ _) _ |- _ => destruct H as (? & _ & ?)
         end.
  cbn [concat app]. rewrite !app_nil_r.
  do 3 eexists. split; [reflexivity|].
  split_and!; try done; intros ->; simpl in *; lia.
Qed.

Lemma extract_emails_match text e :
  e ∈ extract_emails text →
  (∃ before after, text = before ++ e ++ after) ∧
  ∃ prev t rest, match_seq email_pattern prev t = Some (e, rest).
Proof.
  intros He%elem_of_extract_emails. split.
  - by apply (findall_infix email_pattern).
  - by apply scan_matches in He.
Qed.

(** X1: every address that [extract_emails] returns is a local part of
    the characters [A-Za-z0-9._%+-], an [@], a domain of the characters
    [A-Za-z0-9.-], a dot and two or more ASCII letters, none of the parts
    empty. *)
Theorem extract_emails_shape (text : str) :
  Forall (λ e, ∃ local domain tld,
               e = local ++ ch "@" :: domain ++ ch "." :: tld ∧
               local ≠ [] ∧ Forall (λ c, email_local c = true) local ∧
               domain ≠ [] ∧ Forall (λ c, email_domain c = true) domain ∧
               2 ≤ length tld ∧ Forall (λ c, ascii_alpha c = true) tld)
         (extract_emails text).
Proof.
  apply Forall_forall. intros e (_ & prev & t & rest & Hm)%extract_emails_match.
  by eapply email_match_shape.
Qed.

Lemma phone_first_char c r :
  r ∈ phone_patterns → first_class r c = true → c = ch "+" ∨ is_digit c = true.
Proof.
  unfold phone_patterns. rewrite !elem_of_cons, elem_of_nil.
  intros [->|[->|[->|[]]]];
    unfold phone_pattern_1, phone_pattern_2, phone_pattern_3, lit, opt, exactly;
    cbn [first_class Nat.eqb andb];
    rewrite ?orb_true_iff, ?andb_true_iff, ?orb_false_r, ?N.eqb_eq;
    intros H; destruct_or?; destruct_and?; subst; auto; try done;
    right; reflexivity.
Qed.

Lemma phone_last_char c r :
  r ∈ phone_patterns → first_class (reverse r) c = true → is_digit c = true.
Proof.
  unfold phone_patterns. rewrite !elem_of_cons, elem_of_nil.
  intros [->|[->|[->|[]]]];
    unfold phone_pattern_1, phone_pattern_2, phone_pattern_3, lit, opt, exactly;
    cbn [first_class Nat.eqb andb reverse rev_append];
    rewrite ?orb_true_iff, ?andb_true_iff, ?orb_false_r;
    intros H; destruct_or?; destruct_and?; done.
Qed.

Lemma phone_max_len r : r ∈ phone_patterns → ∃ n, max_len r = Some n ∧ n ≤ 19.
Proof.
  unfold phone_patterns. rewrite !elem_of_cons, elem_of_nil.
  intros [->|[->|[->|[]]]]; eexists; (split; [reflexivity|]); lia.
Qed.

(** X3: [extract_phones] returns a sorted list without repetition, and
    each entry is a stretch of the text of 10 to 19 characters that
    starts with a plus sign or a digit and ends with a digit. *)
Theorem extract_phones_shape (text : str) :
  StronglySorted str_le (extract_phones text) ∧
  NoDup (extract_phones text) ∧
  Forall (λ p, (∃ before after, text = before ++ p ++ after) ∧
               10 ≤ length p ≤ 19 ∧
               (∃ c, head p = Some c ∧ (c = ch "+" ∨ is_digit c = true)) ∧
               (∃ c, last p = Some c ∧ is_digit c = true))
         (extract_phones text).
Proof.
  split_and!; [apply sorted_sorted|apply NoDup_sorted_set|].
  apply Forall_forall.
  intros p (r & Hr & Hp)%elem_of_extract_phones%elem_of_phone_matches.
  pose proof (phone_min_len _ Hr) as Hmin.
  destruct (phone_max_len _ Hr) as (n & Hmax & Hn).
  split; [by apply (findall_infix r)|].
  apply scan_matches in Hp as (prev & t & rest & Hm).
  apply match_seq_sound in Hm as (_ & pieces & -> & Hpieces).
  pose proof (pieces_min_len _ _ Hpieces) as Hlo.
  pose proof (pieces_max_len _ _ _ Hpieces Hmax) as Hhi.
  split_and!; [lia|lia| |].
  - destruct (head (concat pieces)) as [c|] eqn:Hh.
    + exists c. split; [done|]. eapply phone_first_char; [done|]. by eapply pieces_head.
    + apply head_None in Hh. rewrite Hh in Hlo. simpl in Hlo. lia.
  - destruct (last (concat pieces)) as [c|] eqn:Hl.
    + exists c. split; [done|]. eapply phone_last_char; [done|]. by eapply pieces_last.
    + apply last_None in Hl. rewrite Hl in Hlo. simpl in Hlo. lia.
Qed.

(** ** The links of the homepage *)

(** Appending what is not there yet: the loop of [candidate_pages], on
    the URLs of the links that pass the keyword test. *)
Lemma append_new_spec (urls pages : list str) :
  let result := foldl (λ pages url, if bool_decide (url ∈ pages) then pages else pages ++ [url])
                      pages urls in
  (NoDup pages → NoDup result) ∧
  (∀ url, url ∈ result ↔ url ∈ pages ∨ url ∈ urls) ∧
  ∃ added, result = pages ++ added ∧ added `sublist_of` urls.
Proof.
  revert pages. induction urls as [|url urls IH]; intros pages; simpl.
  - split_and!; [done| |].
    + intros url. rewrite elem_of_nil. split; [by left|by intros [?|[]]].
    + exists []. by rewrite app_nil_r.
  - destruct (IH (if bool_decide (url ∈ pages) then pages else pages ++ [url]))
      as (Hnodup & Hin & added & Hadded & Hsub).
    split_and!.
    + intros Hp. apply Hnodup. case_bool_decide as Hmem; [done|].
      apply NoDup_app. split_and!; [done| |apply NoDup_singleton].
      intros x Hx ->%list_elem_of_singleton. done.
    + intros x. rewrite Hin, elem_of_cons. case_bool_decide as Hmem.
      * split; [intros [?|?]; auto|]. intros [?|[->|?]]; auto.
      * rewrite elem_of_app, list_elem_of_singleton.
        split; intros H; destruct_or!; auto.
    + rewrite Hadded. case_bool_decide as Hmem.
      * exists added. split; [done|]. by apply sublist_cons.
      * exists (url :: added). split; [by rewrite <-(assoc_L (++))|]. by apply sublist_skip.
Qed.

Lemma candidate_pages_loop website links pages :
  foldl (λ pages link,
           let link_text := lower (get_text [] link) in
           let link_href := lower (default [] (get_attr "href" link)) in
           if existsb (λ k, contains link_text k || contains link_href k) faculty_keywords
           then let full_url := urljoin website (default [] (get_attr "href" link)) in
                if bool_decide (full_url ∈ pages) then pages else pages ++ [full_url]
           else pages)
        pages links
  = foldl (λ pages url, if bool_decide (url ∈ pages) then pages else pages ++ [url])
          pages (link_url website <$> filter (λ link, personnel_link link) links).
Proof.
  revert pages. induction links as [|link links IH]; intros pages; [done|].
  rewrite filter_cons. cbn [foldl]. rewrite IH. clear IH.
  change (existsb _ faculty_keywords) with (personnel_link link).
  destruct (personnel_link link) eqn:Hlink.
  - rewrite decide_True by done. rewrite fmap_cons. cbn [foldl]. done.
  - rewrite decide_False by (by intros []). done.
Qed.

(** X5: the personnel pages that [scrape_college_info] lists have no
    repetition. When the homepage is fetched they are the URLs, joined to
    the website, of the links with an href whose text or href has a
    keyword, in the order of the links; when it is not, the website
    comes back with no address, no phone and no page. *)
Theorem scrape_college_info_pages cfg site w :
  let college_data := (scrape_college_info cfg site w).1 in
  NoDup (faculty_pages college_data) ∧
  (∀ resp, (_get cfg site w).1 = Some resp → ok resp = true →
     let links := filter (λ link, personnel_link link)
                         (find_all ["a"] has_href (BeautifulSoup (content resp))) in
     (∀ url, url ∈ faculty_pages college_data ↔ url ∈ link_url site <$> links) ∧
     faculty_pages college_data `sublist_of` (link_url site <$> links)) ∧
  (truthy (_get cfg site w).1 = false →
   college_data = {| website := site; cd_emails := []; cd_phones := []; faculty_pages := [] |}).
Proof.
  intros college_data. unfold college_data, scrape_college_info, bind, ret.
  destruct (_get cfg site w) as [[resp|] w1]; simpl.
  - destruct (ok resp) eqn:Hok; simpl.
    + unfold candidate_pages. rewrite candidate_pages_loop.
      set (urls := link_url site <$> _).
      destruct (append_new_spec urls []) as (Hnodup & Hin & added & Hadded & Hsub).
      split_and!.
      * apply Hnodup. constructor.
      * intros ? [= <-] _. split.
        -- intros url. rewrite Hin, elem_of_nil. split; [by intros [[]|?]|by right].
        -- by rewrite Hadded.
      * done.
    + split_and!; [constructor|by intros ? [= <-]; rewrite Hok|done].
  - split_and!; [constructor|done|done].
Qed.

(** ** The searches *)

Lemma replace_char_absent a b s : a ∉ b → a ∉ replace_char a b s.
Proof.
  intros Hb. unfold replace_char. induction s as [|c s IH]; [apply not_elem_of_nil|].
  rewrite bind_cons, elem_of_app. intros [Hc|?]; [|done].
  destruct (N.eqb_spec c a) as [->|Hne]; [done|].
  apply list_elem_of_singleton in Hc. congruence.
Qed.

(** X6: a website that [search_college_website] returns starts with
    [http://] or [https://]; there is none when the request fails or is
    answered with an error status, or when the page has no result link.
    The URL requested has no space in it. *)
Theorem search_college_website_result cfg college_name w :
  let request := search_url (college_name ++ u " official website") in
  (∀ site, (search_college_website cfg college_name w).1 = Some site →
           startswith site (u "http://") = true ∨ startswith site (u "https://") = true) ∧
  (truthy (_get cfg request w).1 = false →
   (search_college_website cfg college_name w).1 = None) ∧
  (∀ resp, (_get cfg request w).1 = Some resp →
           find ["a"] (class_is (λ v, bool_decide (v = u "result__a")))
                (BeautifulSoup (content resp)) = None →
           (search_college_website cfg college_name w).1 = None) ∧
  ch " " ∉ request.
Proof.
  intros request. split_and!.
  - intros site. apply search_college_website_http.
  - apply search_college_website_failed.
  - unfold search_college_website, bind, ret. fold request.
    destruct (_get cfg request w) as [[r|] w1]; simpl; [|done].
    intros resp [= ->] ->. by destruct (ok resp).
  - unfold request, search_url. rewrite elem_of_app. intros [Hin|Hin].
    + by vm_compute in Hin; repeat (apply elem_of_cons in Hin as [?|Hin]; [done|]);
        apply elem_of_nil in Hin.
    + revert Hin. apply replace_char_absent.
      intros ?%list_elem_of_singleton. done.
Qed.

Lemma search_linkedin_bounds cfg person college_name w :
  length (search_linkedin cfg person college_name w).1 ≤ 5 ∧
  Forall (λ href, contains href (u "linkedin.com") = true)
         (search_linkedin cfg person college_name w).1.
Proof.
  unfold search_linkedin, bind, ret.
  destruct (_get _ _ _) as [resp w1]; simpl. destruct (truthy resp); simpl.
  - split; [rewrite length_take; lia|].
    apply Forall_take, Forall_forall. by intros href [? _]%list_elem_of_filter.
  - split; [lia|constructor].
Qed.

(** X7: [search_linkedin] returns at most five URLs, each with
    [linkedin.com] in it, and none when its request fails. *)
Theorem search_linkedin_profiles cfg person college_name w :
  let profiles := (search_linkedin cfg person college_name w).1 in
  length profiles ≤ 5 ∧
  Forall (λ href, contains href (u "linkedin.com") = true) profiles ∧
  (truthy (_get cfg (search_url (person ++ u " " ++ college_name ++ u " site:linkedin.com")) w).1
   = false → profiles = []).
Proof.
  intros profiles. unfold profiles.
  destruct (search_linkedin_bounds cfg person college_name w) as [Hlen Hall].
  split_and!; [done|done|apply search_linkedin_failed].
Qed.

(** ** The handler *)






Lemma run_workflow_members_count cfg college_name w :
  (0 ≤ max_faculty_pages cfg)%Z → (0 ≤ max_faculty_per_page cfg)%Z →
  length (r_faculty_members (read_result (run_workflow cfg college_name w).1))
  ≤ Z.to_nat (max_faculty_pages cfg) * Z.to_nat (max_faculty_per_page cfg).
Proof.
  intros Hpages Hper.
  destruct (search_college_website cfg college_name w) as [[site|] w1] eqn:Hsearch.
  - rewrite (run_workflow_found _ _ _ _ _ Hsearch). simpl.
    set (data := scrape_college_info cfg site _).
    destruct (visit_pages_chunks cfg college_name
                (slice_to (max_faculty_pages cfg) (faculty_pages data.1)) [] data.2 Hper)
      as (per_page & -> & Hn & Hall).
    pose proof (slice_to_length_bound _ (faculty_pages data.1) Hpages).
    pose proof (concat_length_bound _ _ Hall). simpl. nia.
  - rewrite run_workflow_not_found by (by rewrite Hsearch). simpl. lia.
Qed.



Lemma post_config_pages data :
  max_faculty_pages (post_config data)
  = Z.min (default 2%Z (d_max_faculty_pages data))
          (if default false (d_include_linkedin data) then 2 else 5).
Proof. unfold post_config. simpl. destruct (default false _); lia. Qed.

Lemma post_config_per_page data :
  max_faculty_per_page (post_config data)
  = Z.min (default 8%Z (d_max_faculty_per_page data))
          (if default false (d_include_linkedin data) then 5 else 25).
Proof. unfold post_config. simpl. destruct (default false _); lia. Qed.

(** X12: for a body whose page and record limits are absent or at least
    0, the result that [do_POST] serves has at most 125 faculty members,
    and at most 10 when [include_linkedin] is set. *)
Theorem do_POST_members_bound data w results :
  (0 ≤ default 2 (d_max_faculty_pages data))%Z →
  (0 ≤ default 8 (d_max_faculty_per_page data))%Z →
  body (do_POST (Some data) w).1 = Served results →
  length (r_faculty_members (read_result results))
  ≤ if default false (d_include_linkedin data) then 10 else 125.
Proof.
  intros Hpages Hper. unfold do_POST. case_bool_decide as Hname; [done|].
  unfold bind, ret.
  pose proof (run_workflow_members_count (post_config data)
                (strip (default [] (d_college_name data))) w) as Hcount.
  destruct (run_workflow _ _ w) as [served w1]. simpl. intros [= <-].
  rewrite post_config_pages, post_config_per_page in Hcount. simpl in Hcount.
  destruct (default false (d_include_linkedin data)); nia.
Qed.

End Scraper.

(** * The properties on the sample web *)

(** C4, as the claim has it, fails: two addresses that differ in letter
    case only are both listed. *)
Lemma extract_emails_keeps_both_cases :
  extract_emails ascii_only (u "A@x.edu a@x.edu") = [u "A@x.edu"; u "a@x.edu"] ∧
  lower ascii_only (u "A@x.edu") = lower ascii_only (u "a@x.edu").
Proof. split; vm_compute; reflexivity. Qed.

(** C5 on the number of the claim: the first two patterns both find
    [+91-9876543210], and the list has it once; the other entry is the
    ten digits that the third pattern finds. *)
Lemma extract_phones_once_witness :
  (u "+91-9876543210" ∈ findall ascii_only (phone_pattern_1 ascii_only) (u "+91-9876543210") ∧
   u "+91-9876543210" ∈ findall ascii_only (phone_pattern_2 ascii_only) (u "+91-9876543210")) ∧
  extract_phones ascii_only (u "+91-9876543210") = [u "+91-9876543210"; u "9876543210"] ∧
  length (filter (u "+91-9876543210" =.) (extract_phones ascii_only (u "+91-9876543210"))) = 1.
Proof.
  assert (u "+91-9876543210" ∈ findall ascii_only (phone_pattern_1 ascii_only) (u "+91-9876543210"))
    as H1 by (vm_compute; constructor).
  assert (u "+91-9876543210" ∈ findall ascii_only (phone_pattern_2 ascii_only) (u "+91-9876543210"))
    as H2 by (vm_compute; constructor).
  split; [split; assumption|].
  split; [vm_compute; reflexivity|].
  apply (extract_phones_once ascii_only (u "+91-9876543210") (u "+91-9876543210") 0 1
           (phone_pattern_1 ascii_only) (phone_pattern_2 ascii_only));
    first [lia | assumption | reflexivity].
Defined.

(** C3, as the claim has it, fails both ways. A redirect link of the
    search engine whose query has no [uddg] comes back unchanged, no
    destination being decoded; and a link to another host, whose name
    only ends in [duckduckgo.com], is unwrapped all the same. *)
Lemma unwrap_redirect_without_uddg :
  (urlparse accept_netloc (u "https://duckduckgo.com/l/?q=1")
   = Some {| scheme := u "https"; netloc := u "duckduckgo.com"; path := u "/l/";
             params := []; query := u "q=1"; fragment := [] |} ∧
   parse_qs replacement (u "q=1") !! u "uddg" = None ∧
   _unwrap_duckduckgo_redirect replacement accept_netloc (u "https://duckduckgo.com/l/?q=1")
   = u "https://duckduckgo.com/l/?q=1") ∧
  (netloc <$> urlparse accept_netloc (u "https://notduckduckgo.com/l/?uddg=x")
   = Some (u "notduckduckgo.com") ∧
   _unwrap_duckduckgo_redirect replacement accept_netloc (u "https://notduckduckgo.com/l/?uddg=x")
   = u "x").
Proof. repeat split; vm_compute; reflexivity. Qed.

(** An href that [urlparse] refuses comes back as it is. *)
Example unwrap_malformed :
  urlparse accept_netloc (u "http://[::1/l/?uddg=x") = None ∧
  _unwrap_duckduckgo_redirect replacement accept_netloc (u "http://[::1/l/?uddg=x")
  = u "http://[::1/l/?uddg=x".
Proof. split; vm_compute; reflexivity. Qed.

(** C2 on the sample personnel page: the two strategies emit four
    records, two of them for [a@x.edu]; the row of the table, seen first,
    is the one kept. *)
Lemma scrape_faculty_page_dedup_witness :
  name <$> faculty_list_of ascii_only (u "https://x.edu/faculty") faculty_page
  = [u "Dr. A"; u "Dr. B"; u "Prof. A"; u "Dr. C"] ∧
  name <$> (scrape_faculty_page ascii_only sample_soup sample_get sample_sleep
              (sample_config 2 8) (u "https://x.edu/faculty") []).1
  = [u "Dr. A"; u "Dr. B"; u "Dr. C"] ∧
  Forall (λ item, emails item ≠ [])
         (scrape_faculty_page ascii_only sample_soup sample_get sample_sleep
            (sample_config 2 8) (u "https://x.edu/faculty") []).1 ∧
  NoDup (email_key <$> (scrape_faculty_page ascii_only sample_soup sample_get sample_sleep
                          (sample_config 2 8) (u "https://x.edu/faculty") []).1).
Proof.
  destruct (scrape_faculty_page_dedup ascii_only sample_soup sample_get sample_sleep
              (sample_config 2 8) (u "https://x.edu/faculty") []
              {| ok := true; content := "faculty" |} [u "https://x.edu/faculty"])
    as (Hemails & _ & Hkeys & _); [vm_compute; reflexivity|reflexivity|].
  split; [vm_compute; reflexivity|].
  split; [vm_compute; reflexivity|].
  split; assumption.
Defined.

(** C6, as the claim has it, fails: the tags on the sample page are
    [table] and [section], not [tabular] and [profile-block]. *)
Lemma source_tags_on_sample_page :
  source <$> table_records ascii_only (u "https://x.edu/faculty") faculty_page
  = [u "table"; u "table"] ∧
  source <$> section_records ascii_only (u "https://x.edu/faculty") faculty_page
  = [u "section"; u "section"] ∧
  u "table" ≠ u "tabular" ∧ u "section" ≠ u "profile-block".
Proof. repeat split; try (vm_compute; reflexivity); discriminate. Qed.

(** C1 on a network where every request raises: both attempts of the
    search fail, and the result is the empty one with the error. *)
Lemma run_workflow_website_not_found_witness :
  (search_college_website ascii_only replacement accept_netloc sample_soup dead_get
     sample_sleep (sample_config 2 8) (u "X") []).1 = None ∧
  ∃ results heap,
    run_workflow ascii_only replacement accept_netloc sample_urljoin sample_soup dead_get
      sample_sleep (sample_config 2 8) (u "X") []
    = (results, heap,
       (search_college_website ascii_only replacement accept_netloc sample_soup dead_get
          sample_sleep (sample_config 2 8) (u "X") []).2) ∧
    college_name results = u "X" ∧
    college_website results = None ∧
    college_contacts results = {| c_emails := []; c_phones := [] |} ∧
    faculty_members results = [] ∧
    heap !! meta results
    = Some {| config := config_echo (sample_config 2 8);
              error := Some (u "website_not_found") |}.
Proof.
  split; [vm_compute; reflexivity|].
  apply (run_workflow_website_not_found ascii_only replacement accept_netloc sample_urljoin
           sample_soup dead_get sample_sleep (sample_config 2 8) (u "X") []).
  vm_compute; reflexivity.
Defined.

(** C8 on the sample web: the homepage offers two personnel pages, and
    with [max_faculty_pages = 0] none is visited. *)
Lemma no_pages_no_members_witness :
  faculty_pages (scrape_college_info ascii_only sample_urljoin sample_soup sample_get
                   sample_sleep (sample_config 0 8) (u "https://x.edu") []).1
  = [u "https://x.edu/faculty"; u "https://x.edu/staff"] ∧
  r_faculty_members
    (read_result (run_workflow ascii_only replacement accept_netloc sample_urljoin sample_soup
                    sample_get sample_sleep (sample_config 0 8) (u "X") []).1) = [].
Proof.
  split; [vm_compute; reflexivity|].
  apply (no_pages_no_members ascii_only replacement accept_netloc sample_urljoin sample_soup
           sample_get sample_sleep (sample_config 0 8) (u "X") []).
  reflexivity.
Defined.

(** C9 on the sample web with one page and two records a page: the
    page has three records, and two are taken. *)
Lemma faculty_members_bound_witness :
  name <$> r_faculty_members
             (read_result (run_workflow ascii_only replacement accept_netloc sample_urljoin
                             sample_soup sample_get sample_sleep (sample_config 1 2)
                             (u "X") []).1)
  = [u "Dr. A"; u "Dr. B"] ∧
  (Z.of_nat
     (length
        (r_faculty_members
           (read_result (run_workflow ascii_only replacement accept_netloc sample_urljoin
                           sample_soup sample_get sample_sleep (sample_config 1 2)
                           (u "X") []).1)))
   ≤ max_faculty_pages (sample_config 1 2) * max_faculty_per_page (sample_config 1 2))%Z.
Proof.
  split; [vm_compute; reflexivity|].
  apply (faculty_members_bound ascii_only replacement accept_netloc sample_urljoin sample_soup
           sample_get sample_sleep (sample_config 1 2) (u "X") []); simpl; lia.
Defined.

(** The whole workflow on the sample web: the search result is unwrapped
    to the website, the homepage gives the contact address and two pages,
    and each page gives its three records, those of the table first. *)
Example run_workflow_sample :
  let result :=
    read_result (run_workflow ascii_only replacement accept_netloc sample_urljoin sample_soup
                   sample_get sample_sleep (sample_config 2 8) (u "X") []).1 in
  r_college_website result = Some (u "https://x.edu") ∧
  c_emails (r_college_contacts result) = [u "faculty@x.edu"] ∧
  (λ f, (name f, emails f, source f)) <$> take 3 (r_faculty_members result)
  = [(u "Dr. A", [u "a@x.edu"], u "table"); (u "Dr. B", [u "b@x.edu"], u "table");
     (u "Dr. C", [u "c@x.edu"], u "section")] ∧
  length (r_faculty_members result) = 6 ∧
  (r_meta result ≫= error) = None.
Proof. repeat split; vm_compute; reflexivity. Qed.

(** * The further properties on the sample web *)

(** X12 on the sample web: the body asks for 9 pages and 100 records a
    page, for a name with spaces around it; the limits become 5 and 25,
    and the six records of the two pages are served. *)
Lemma do_POST_members_bound_witness :
  status (do_POST ascii_only replacement accept_netloc sample_urljoin sample_soup sample_get
            sample_sleep (Some (sample_post " X " (Some 9%Z) (Some 100%Z) false)) []).1 = 200%Z ∧
  max_faculty_pages (post_config (sample_post " X " (Some 9%Z) (Some 100%Z) false)) = 5%Z ∧
  max_faculty_per_page (post_config (sample_post " X " (Some 9%Z) (Some 100%Z) false)) = 25%Z ∧
  length (r_faculty_members
            (read_result
               (run_workflow ascii_only replacement accept_netloc sample_urljoin sample_soup
                  sample_get sample_sleep
                  (post_config (sample_post " X " (Some 9%Z) (Some 100%Z) false))
                  (u "X") []).1))
  ≤ 125.
Proof.
  split; [vm_compute; reflexivity|].
  split; [reflexivity|].
  split; [reflexivity|].
  apply (do_POST_members_bound ascii_only replacement accept_netloc sample_urljoin sample_soup
           sample_get sample_sleep (sample_post " X " (Some 9%Z) (Some 100%Z) false) []);
    [vm_compute; discriminate|vm_compute; discriminate|vm_compute; reflexivity].
Defined.

(** A body without a name, or with a blank one, is refused before any
    request is made. *)
Example do_POST_blank_name :
  do_POST ascii_only replacement accept_netloc sample_urljoin sample_soup sample_get
    sample_sleep (Some (sample_post "   " None None false)) []
  = ({| status := 400; body := Refused "college_name_required" |}, []).
Proof. vm_compute; reflexivity. Qed.
